(** * EcoPV pipeline: ground-truth extraction and evaluation

    A shallow embedding of [pipeline/inference.py] (class [EcoPVPipeline]):
    the COCO annotation parser ([parse_coco_split], [build_gt_for_split]),
    the object-level extraction step and the evaluator
    ([evaluate_predictions]).

    Modelling conventions.
    - A JSON / float64 number is an exact rational [Q]; rounding of float64
      arithmetic is abstracted.  A table cell that may be null / NaN is a
      [cell := option Q], with [None] for NaN.
    - A [dict] built by a comprehension is a [gmap]; a later entry with the
      same key overrides an earlier one, as in Python.
    - A pandas table is the list of its rows, each row a record with one
      field per column, in row order.
    - A Python exception is the [Raise] branch of [result]. *)

From Stdlib Require Import ZArith QArith Qabs Qround Lia Lqa Ascii.
From stdpp Require Import base option list gmap strings pretty.

Local Open Scope Z_scope.

(** ** Exceptions and results *)

Inductive Exn :=
| KeyError_int (k : Z)          (* a missing integer key of a dict *)
| KeyError_str (k : string)     (* a missing column of a table *)
| ValueError (msg : string).

Inductive result (A : Type) :=
| Ok (a : A)
| Raise (e : Exn).
Arguments Ok {A} a.
Arguments Raise {A} e.

(** Sequencing: an exception skips the rest. *)
#[global] Instance result_ret : MRet result := fun A a => Ok a.
#[global] Instance result_bind : MBind result := fun A B k r =>
  match r with
  | Ok a => k a
  | Raise e => Raise e
  end.

(** ** The annotation document (COCO) *)

(** A cell of a table: [None] is null / NaN. *)
Definition cell := option Q.

Record Image := {
  id : Z;
  file_name : string;
  width : Z;
  height : Z;
}.

Record Category := {
  cat_id : Z;
  name : string;
}.

(** The bounding box [[x_min, y_min, w, h]]. *)
Record BBox := {
  bx : Q;
  by_ : Q;
  bw : Q;
  bh : Q;
}.

(** The optional [attributes] map of an annotation.  For each key, [None] is
    an absent key, [Some None] a key present with value null. *)
Record Attributes := {
  attr_centroid_lat : option cell;
  attr_centroid_lon : option cell;
  attr_area_m2 : option cell;
}.

Definition no_attributes : Attributes :=
  {| attr_centroid_lat := None; attr_centroid_lon := None; attr_area_m2 := None |}.

(** An annotation record.  [area] is [None] when the record omits the key;
    [attributes] is [None] when the key is absent, null or the empty map. *)
Record Annotation := {
  image_id : Z;
  category_id : Z;
  bbox : BBox;
  area : option cell;
  attributes : option Attributes;
}.

Record Coco := {
  images : list Image;
  categories : list Category;
  annotations : list Annotation;
}.

(** [dict.get(key, default)] on an optional key. *)
Definition get_default {A} (o : option A) (d : A) : A :=
  match o with
  | Some v => v
  | None => d
  end.

(** [dict.get(key)]: null when the key is absent. *)
Definition get_cell (o : option cell) : cell := get_default o None.

(** [ann.get("attributes", {}) or {}] *)
Definition attrs_of (ann : Annotation) : Attributes :=
  get_default (attributes ann) no_attributes.

(** ** Object-level rows: [parse_coco_split] *)

Record ObjRow := {
  o_split : string;
  o_image_id : Z;
  o_file_name : string;
  o_img_width_px : Z;
  o_img_height_px : Z;
  o_category_id : Z;
  o_category_name : string;
  o_x_min_px : Q;
  o_y_min_px : Q;
  o_width_px : Q;
  o_height_px : Q;
  o_x_max_px : Q;
  o_y_max_px : Q;
  o_area_px : cell;
  o_centroid_lat : cell;
  o_centroid_lon : cell;
  o_area_m2 : cell;
}.

(** [{img["id"]: img for img in coco.get("images", [])}] *)
Definition images_by_id (coco : Coco) : gmap Z Image :=
  foldl (fun m img => <[id img := img]> m) ∅ (images coco).

(** [{cat["id"]: cat["name"] for cat in coco.get("categories", [])}] *)
Definition cats_by_id (coco : Coco) : gmap Z string :=
  foldl (fun m cat => <[cat_id cat := name cat]> m) ∅ (categories coco).

(** [f"class_{category_id}"] *)
Definition class_name (category_id : Z) : string :=
  String.append "class_" (pretty category_id).

(** The body of the loop over annotations: one row, or the [KeyError] of
    [images_by_id[image_id]]. *)
Definition parse_annotation (split_name : string)
    (imgs : gmap Z Image) (cats : gmap Z string) (ann : Annotation)
    : result ObjRow :=
  let image_id := image_id ann in
  let category_id := category_id ann in
  let bbox := bbox ann in
  let area_px := get_default (area ann) (Some (bw bbox * bh bbox)%Q) in
  let attrs := attrs_of ann in
  let centroid_lat := get_cell (attr_centroid_lat attrs) in
  let centroid_lon := get_cell (attr_centroid_lon attrs) in
  let area_m2 := get_cell (attr_area_m2 attrs) in
  match imgs !! image_id with
  | None => Raise (KeyError_int image_id)
  | Some img_info =>
    let cat_name := get_default (cats !! category_id) (class_name category_id) in
    let x_min := bx bbox in
    let y_min := by_ bbox in
    let w := bw bbox in
    let h := bh bbox in
    let x_max := (x_min + w)%Q in
    let y_max := (y_min + h)%Q in
    Ok {| o_split := split_name;
          o_image_id := image_id;
          o_file_name := file_name img_info;
          o_img_width_px := width img_info;
          o_img_height_px := height img_info;
          o_category_id := category_id;
          o_category_name := cat_name;
          o_x_min_px := x_min;
          o_y_min_px := y_min;
          o_width_px := w;
          o_height_px := h;
          o_x_max_px := x_max;
          o_y_max_px := y_max;
          o_area_px := area_px;
          o_centroid_lat := centroid_lat;
          o_centroid_lon := centroid_lon;
          o_area_m2 := area_m2 |}
  end.

(** The loop [for ann in ...: rows.append(...)]: [rows] is the accumulator,
    and the first exception leaves the loop. *)
Fixpoint parse_annotations (split_name : string)
    (imgs : gmap Z Image) (cats : gmap Z string)
    (anns : list Annotation) (rows : list ObjRow) : result (list ObjRow) :=
  match anns with
  | [] => Ok rows
  | ann :: anns' =>
    row ← parse_annotation split_name imgs cats ann;
    parse_annotations split_name imgs cats anns' (rows ++ [row])
  end.

(** A dataset directory: the annotation document of each split that has
    one.  A split that is no key has no [_annotations.coco.json]. *)
Definition parse_coco_split (split_name : string)
    (dataset_dir : gmap string Coco) : result (list ObjRow) :=
  match dataset_dir !! split_name with
  | None => Ok []
  | Some coco =>
    parse_annotations split_name (images_by_id coco) (cats_by_id coco)
      (annotations coco) []
  end.

(** ** Image-level rows: [build_gt_for_split] *)

Record GtRow := {
  g_split : string;
  g_file_name : string;
  g_image_id : Z;
  g_img_width_px : Z;
  g_img_height_px : Z;
  num_boxes_gt : Z;
  area_px_gt : Q;
  area_m2_gt : Q;
  has_solar_gt : bool;
}.

(** A row of [rows_ann]. *)
Record AnnRow := {
  r_image_id : Z;
  r_area_px : cell;
  r_area_m2 : cell;
}.

Definition ann_row (ann : Annotation) : AnnRow :=
  let attrs := attrs_of ann in
  {| r_image_id := image_id ann;
     r_area_px := get_default (area ann) (Some 0%Q);
     r_area_m2 := get_default (attr_area_m2 attrs) (Some 0%Q) |}.

(** A row of [agg], without its key. *)
Record AggRow := {
  a_num_boxes : Z;
  a_area_px : Q;
  a_area_m2 : Q;
}.

Definition agg_zero : AggRow :=
  {| a_num_boxes := 0; a_area_px := 0%Q; a_area_m2 := 0%Q |}.

(** One more row in a group: ["size"] counts every row, ["sum"] skips the
    null cells. *)
Definition agg_add (a : AggRow) (r : AnnRow) : AggRow :=
  {| a_num_boxes := a_num_boxes a + 1;
     a_area_px := (a_area_px a + get_default (r_area_px r) 0)%Q;
     a_area_m2 := (a_area_m2 a + get_default (r_area_m2 r) 0)%Q |}.

Definition agg_step (m : gmap Z AggRow) (r : AnnRow) : gmap Z AggRow :=
  <[r_image_id r := agg_add (default agg_zero (m !! r_image_id r)) r]> m.

(** [df_ann.groupby("image_id").agg(size, sum, sum)], keyed by image id. *)
Definition groupby_agg (rows_ann : list AnnRow) : gmap Z AggRow :=
  foldl agg_step ∅ rows_ann.

(** A row of [df_imgs] extended with the three aggregates and the flag. *)
Definition gt_row (split : string) (img : Image)
    (n : Z) (a_px a_m2 : Q) (has_solar : bool) : GtRow :=
  {| g_split := split;
     g_file_name := file_name img;
     g_image_id := id img;
     g_img_width_px := width img;
     g_img_height_px := height img;
     num_boxes_gt := n;
     area_px_gt := a_px;
     area_m2_gt := a_m2;
     has_solar_gt := has_solar |}.

(** The left merge of [df_imgs] with [agg] on the image id, followed by the
    three [fillna] and the flag: a row per row of [df_imgs], in its order. *)
Definition merge_left_fill (split : string) (agg : gmap Z AggRow)
    (img : Image) : GtRow :=
  let a := default agg_zero (agg !! id img) in
  gt_row split img (a_num_boxes a) (a_area_px a) (a_area_m2 a)
    (bool_decide (0 < a_num_boxes a)).

(** With no image the table [df_imgs] has no column ["image_id"], and the
    merge on it raises. *)
Definition build_gt_for_split (split : string)
    (dataset_dir : gmap string Coco) : result (list GtRow) :=
  match dataset_dir !! split with
  | None => Ok []
  | Some coco =>
    let imgs := images coco in
    let anns := annotations coco in
    match anns with
    | [] => Ok ((fun img => gt_row split img 0 0%Q 0%Q false) <$> imgs)
    | _ :: _ =>
      let rows_ann := ann_row <$> anns in
      let agg := groupby_agg rows_ann in
      match imgs with
      | [] => Raise (KeyError_str "image_id")
      | _ :: _ => Ok (merge_left_fill split agg <$> imgs)
      end
    end
  end.

(** ** Prediction rows and merged rows *)

Record PredRow := {
  p_split : string;
  p_file_name : string;
  image_path : string;
  num_preds : Z;
  has_solar_pred : bool;
  max_conf_pred : Q;
  area_px_pred : Q;
}.

(** A row of [df_merged]: the key columns once, then the columns of the
    ground truth and those of the prediction. *)
Record MergedRow := {
  m_split : string;
  m_file_name : string;
  m_image_id : Z;
  m_img_width_px : Z;
  m_img_height_px : Z;
  m_num_boxes_gt : Z;
  m_area_px_gt : Q;
  m_area_m2_gt : Q;
  m_has_solar_gt : bool;
  m_image_path : string;
  m_num_preds : Z;
  m_has_solar_pred : bool;
  m_max_conf_pred : Q;
  m_area_px_pred : Q;
}.

Definition gt_key (g : GtRow) : string * string := (g_split g, g_file_name g).
Definition pred_key (p : PredRow) : string * string := (p_split p, p_file_name p).
Definition merged_key (r : MergedRow) : string * string := (m_split r, m_file_name r).

Definition join_row (g : GtRow) (p : PredRow) : MergedRow :=
  {| m_split := g_split g;
     m_file_name := g_file_name g;
     m_image_id := g_image_id g;
     m_img_width_px := g_img_width_px g;
     m_img_height_px := g_img_height_px g;
     m_num_boxes_gt := num_boxes_gt g;
     m_area_px_gt := area_px_gt g;
     m_area_m2_gt := area_m2_gt g;
     m_has_solar_gt := has_solar_gt g;
     m_image_path := image_path p;
     m_num_preds := num_preds p;
     m_has_solar_pred := has_solar_pred p;
     m_max_conf_pred := max_conf_pred p;
     m_area_px_pred := area_px_pred p |}.

(** [pd.merge(df_gt, df_pred, on=["split", "file_name"], how="inner")]:
    a row for every pair of a left row and a right row with the same key,
    in the order of the left rows. *)
Definition pd_merge_inner (df_gt : list GtRow) (df_pred : list PredRow)
    : list MergedRow :=
  g ← df_gt;
  p ← filter (fun p => pred_key p = gt_key g) df_pred;
  [join_row g p].

(** ** The pipeline object and its output directory *)

(** The tabular artifacts of [outputs_dir]; [None] is a file that does not
    exist.  A file that exists holds a table with the columns of its row
    type and the listed rows; a file written from a frame without columns,
    which [read_csv] rejects, is not a value of this type. *)
Record Outputs := {
  annotations_with_geo_csv : option (list ObjRow);
  gt_image_level_all_images_csv : option (list GtRow);
  pred_image_level_csv : option (list PredRow);
  gt_pred_image_level_merged_full_csv : option (list MergedRow);
}.

Record Pipeline := {
  dataset_dir : option (gmap string Coco);
  outputs_dir : Outputs;
}.

Definition write_annotations (self : Pipeline) (df : list ObjRow) : Pipeline :=
  {| dataset_dir := dataset_dir self;
     outputs_dir :=
       {| annotations_with_geo_csv := Some df;
          gt_image_level_all_images_csv :=
            gt_image_level_all_images_csv (outputs_dir self);
          pred_image_level_csv := pred_image_level_csv (outputs_dir self);
          gt_pred_image_level_merged_full_csv :=
            gt_pred_image_level_merged_full_csv (outputs_dir self) |} |}.

Definition write_merged (self : Pipeline) (df : list MergedRow) : Pipeline :=
  {| dataset_dir := dataset_dir self;
     outputs_dir :=
       {| annotations_with_geo_csv := annotations_with_geo_csv (outputs_dir self);
          gt_image_level_all_images_csv :=
            gt_image_level_all_images_csv (outputs_dir self);
          pred_image_level_csv := pred_image_level_csv (outputs_dir self);
          gt_pred_image_level_merged_full_csv := Some df |} |}.

(** The loop of [extract_object_level_gt] over the three splits: the frames
    that are not empty, concatenated in order. *)
Fixpoint concat_splits (dataset : gmap string Coco) (splits : list string)
    (dfs : list ObjRow) : result (list ObjRow) :=
  match splits with
  | [] => Ok dfs
  | split :: splits' =>
    df_split ← parse_coco_split split dataset;
    concat_splits dataset splits' (dfs ++ df_split)
  end.

(** [extract_object_level_gt]: the result is the path of the file written. *)
Definition extract_object_level_gt (self : Pipeline)
    : result string * Pipeline :=
  match dataset_dir self with
  | None =>
    (Raise (ValueError "Dataset not downloaded. Call download_dataset() first."),
     self)
  | Some dataset =>
    match concat_splits dataset ["train"; "valid"; "test"] [] with
    | Raise e => (Raise e, self)
    | Ok df_all => (Ok "annotations_with_geo.csv", write_annotations self df_all)
    end
  end.

(** ** Series *)

(** [s.sum()] of a series of finite values. *)
Definition series_sum (s : list Q) : Q := foldl Qplus 0%Q s.

(** [s.mean()]: NaN cells are skipped; the mean of no value is NaN. *)
Definition series_mean (s : list cell) : cell :=
  let vals := omap (fun c : cell => c) s in
  match vals with
  | [] => None
  | _ :: _ => Some (series_sum vals / inject_Z (Z.of_nat (length vals)))%Q
  end.

(** [s.replace(0, np.nan)] *)
Definition replace_zero_nan (s : list Q) : list cell :=
  (fun x => if Qeq_bool x 0 then None else Some x) <$> s.

(** Division of two cells; NaN on either side gives NaN. *)
Definition cell_div (a b : cell) : cell :=
  match a, b with
  | Some x, Some y => Some (x / y)%Q
  | _, _ => None
  end.

(** [c * k] on a cell. *)
Definition cell_scale (k : Q) (c : cell) : cell :=
  (fun x => x * k)%Q <$> c.

(** [x > 0] on a finite value. *)
Definition Qpositive (x : Q) : bool := negb (Qle_bool x 0).

(** [(cond).sum()] over the rows of a table. *)
Definition count_rows (cond : MergedRow -> bool) (df : list MergedRow) : Z :=
  Z.of_nat (length (List.filter cond df)).

(** ** The evaluator: [evaluate_predictions] *)

Record Metrics := {
  tp : Z;
  fp : Z;
  fn : Z;
  tn : Z;
  accuracy : Q;
  precision : Q;
  recall : Q;
  f1_score : Q;
  mae_px2 : cell;
  rmse_px2 : cell;
  mape_percent : cell;
  num_images_area_eval : Z;
  total_images : Z;
}.

Definition eps : Q := 1 # 1000000000.

Section Evaluator.

(** [np.sqrt] on a finite value that is not negative. *)
Variable np_sqrt : Q -> Q.

Variable df_merged : list MergedRow.

(** Classification metrics *)
Definition calc_tp : Z :=
  count_rows (fun r => Bool.eqb (m_has_solar_gt r) true
                       && Bool.eqb (m_has_solar_pred r) true) df_merged.
Definition calc_tn : Z :=
  count_rows (fun r => Bool.eqb (m_has_solar_gt r) false
                       && Bool.eqb (m_has_solar_pred r) false) df_merged.
Definition calc_fp : Z :=
  count_rows (fun r => Bool.eqb (m_has_solar_gt r) false
                       && Bool.eqb (m_has_solar_pred r) true) df_merged.
Definition calc_fn : Z :=
  count_rows (fun r => Bool.eqb (m_has_solar_gt r) true
                       && Bool.eqb (m_has_solar_pred r) false) df_merged.

Definition precision_den : Q := (inject_Z (calc_tp + calc_fp) + eps)%Q.
Definition recall_den : Q := (inject_Z (calc_tp + calc_fn) + eps)%Q.
Definition calc_precision : Q := (inject_Z calc_tp / precision_den)%Q.
Definition calc_recall : Q := (inject_Z calc_tp / recall_den)%Q.
Definition f1_den : Q := (calc_precision + calc_recall + eps)%Q.
Definition calc_f1 : Q := (2 * calc_precision * calc_recall / f1_den)%Q.
Definition accuracy_den : Q :=
  (inject_Z (calc_tp + calc_tn + calc_fp + calc_fn) + eps)%Q.
Definition calc_accuracy : Q := (inject_Z (calc_tp + calc_tn) / accuracy_den)%Q.

(** Area estimation metrics *)
Definition mask (r : MergedRow) : bool :=
  Qpositive (m_area_px_gt r) || Qpositive (m_area_px_pred r).
Definition area_gt : list Q := m_area_px_gt <$> List.filter mask df_merged.
Definition area_pred : list Q := m_area_px_pred <$> List.filter mask df_merged.

Definition abs_err : list Q :=
  zip_with (fun p g => Qabs (p - g)) area_pred area_gt.
Definition sq_err : list Q :=
  zip_with (fun p g => (p - g) ^ 2)%Q area_pred area_gt.

Definition mae : cell := series_mean (Some <$> abs_err).
Definition rmse : cell := np_sqrt <$> series_mean (Some <$> sq_err).

Definition rel_err : list cell :=
  zip_with cell_div (Some <$> abs_err) (replace_zero_nan area_gt).
Definition mape : cell := series_mean (cell_scale 100 <$> rel_err).

Definition metrics : Metrics :=
  {| tp := calc_tp; fp := calc_fp; fn := calc_fn; tn := calc_tn;
     accuracy := calc_accuracy;
     precision := calc_precision;
     recall := calc_recall;
     f1_score := calc_f1;
     mae_px2 := mae;
     rmse_px2 := rmse;
     mape_percent := mape;
     num_images_area_eval := count_rows mask df_merged;
     total_images := Z.of_nat (length df_merged) |}.

End Evaluator.

Definition not_found : string :=
  "Ground truth or prediction files not found. Run extraction and inference first.".

(** [evaluate_predictions]: the metrics, and the output directory with the
    merged table written. *)
Definition evaluate_predictions (np_sqrt : Q -> Q) (self : Pipeline)
    : result Metrics * Pipeline :=
  match gt_image_level_all_images_csv (outputs_dir self),
        pred_image_level_csv (outputs_dir self) with
  | Some df_gt, Some df_pred =>
    let df_merged := pd_merge_inner df_gt df_pred in
    (Ok (metrics np_sqrt df_merged), write_merged self df_merged)
  | _, _ => (Raise (ValueError not_found), self)
  end.

(** ** Image-level extraction: [extract_image_level_gt] *)

(** What [to_csv] leaves on disk: a frame without columns gives a file
    without header, any other frame a table. *)
Inductive CsvFile (A : Type) :=
| NoColumns
| Table (rows : list A).
Arguments NoColumns {A}.
Arguments Table {A} rows.

(** The loop of [extract_image_level_gt] over the three splits: the frames
    that are not empty, concatenated in order. *)
Fixpoint concat_gt_splits (dataset : gmap string Coco) (splits : list string)
    (dfs_full : list GtRow) : result (list GtRow) :=
  match splits with
  | [] => Ok dfs_full
  | split :: splits' =>
    df_split ← build_gt_for_split split dataset;
    concat_gt_splits dataset splits' (dfs_full ++ df_split)
  end.

(** [extract_image_level_gt]: the result, and what the call has written to
    [gt_image_level_all_images.csv] ([None]: nothing).  With no frame the
    table written has no column, and the column lookup of the final report,
    [df_full_gt["has_solar_gt"]], raises after the file is written. *)
Definition extract_image_level_gt (self : Pipeline)
    : result string * option (CsvFile GtRow) :=
  match dataset_dir self with
  | None =>
    (Raise (ValueError "Dataset not downloaded. Call download_dataset() first."),
     None)
  | Some dataset =>
    match concat_gt_splits dataset ["train"; "valid"; "test"] [] with
    | Raise e => (Raise e, None)
    | Ok [] => (Raise (KeyError_str "has_solar_gt"), Some NoColumns)
    | Ok (g :: df) =>
      (Ok "gt_image_level_all_images.csv", Some (Table (g :: df)))
    end
  end.

(** ** The prediction collector: [run_inference_on_split] *)

(** A predicted object; each key may be absent. *)
Record Prediction := {
  confidence : option Q;
  pred_width : option Q;
  pred_height : option Q;
}.

(** The answer of the inference service; [predictions] may be absent. *)
Record InferResult := {
  predictions : option (list Prediction);
}.

(** A record of [raw_records]. *)
Record RawRecord := {
  raw_split : string;
  raw_file_name : string;
  raw_image_path : string;
  raw_result : InferResult;
}.

(** [os.path.basename]: what follows the last slash. *)
Fixpoint basename_from (acc p : string) : string :=
  match p with
  | EmptyString => acc
  | String c p' =>
    if Ascii.eqb c "/"%char then basename_from EmptyString p'
    else basename_from (String.append acc (String c EmptyString)) p'
  end.
Definition basename (p : string) : string := basename_from EmptyString p.

(** [max(xs, default=0.0)]: the first of the greatest elements. *)
Definition max_default (xs : list Q) : Q :=
  match xs with
  | [] => 0%Q
  | x :: xs' => foldl (fun m c => if Qle_bool c m then m else c) x xs'
  end.

(** The loop that sums [w * h] over the predictions. *)
Definition sum_pred_area (preds : list Prediction) : Q :=
  foldl (fun area_px_pred p =>
           let w := get_default (pred_width p) 0%Q in
           let h := get_default (pred_height p) 0%Q in
           (area_px_pred + w * h)%Q) 0%Q preds.

(** The row of one image, from the answer of the service. *)
Definition pred_row (split img_path : string) (result : InferResult) : PredRow :=
  let file_name := basename img_path in
  let preds := get_default (predictions result) [] in
  let num_preds := Z.of_nat (length preds) in
  let max_conf := max_default ((fun p => get_default (confidence p) 0%Q) <$> preds) in
  let has_solar_pred := bool_decide (0 < num_preds) in
  {| p_split := split;
     p_file_name := file_name;
     image_path := img_path;
     num_preds := num_preds;
     has_solar_pred := has_solar_pred;
     max_conf_pred := max_conf;
     area_px_pred := sum_pred_area preds |}.

Definition raw_record (split img_path : string) (result : InferResult) : RawRecord :=
  {| raw_split := split;
     raw_file_name := basename img_path;
     raw_image_path := img_path;
     raw_result := result |}.

Section Inference.

(** [self.inference_client.infer(img_path, model_id=model_id)]; [Raise] is
    any exception of the call. *)
Variable infer : string -> string -> result InferResult.

(** The loop over [image_paths]; a call that raises is skipped. *)
Fixpoint infer_loop (split model_id : string) (image_paths : list string)
    (rows : list PredRow) (raw_records : list RawRecord)
    : list PredRow * list RawRecord :=
  match image_paths with
  | [] => (rows, raw_records)
  | img_path :: image_paths' =>
    match infer img_path model_id with
    | Raise _ => infer_loop split model_id image_paths' rows raw_records
    | Ok result =>
      infer_loop split model_id image_paths'
        (rows ++ [pred_row split img_path result])
        (raw_records ++ [raw_record split img_path result])
    end
  end.

(** [run_inference_on_split], from the sorted list [image_paths] that the
    three globs of the split directory give. *)
Definition run_inference_on_split (split : string) (image_paths : list string)
    (model_id : string) : list PredRow * list RawRecord :=
  infer_loop split model_id image_paths [] [].

End Inference.

(** * Specification-side definitions and sample inputs *)

(** A pipeline whose output directory holds the two given tables and no
    other file. *)
Definition pipeline_with (df_gt : list GtRow) (df_pred : list PredRow)
    : Pipeline :=
  {| dataset_dir := None;
     outputs_dir :=
       {| annotations_with_geo_csv := None;
          gt_image_level_all_images_csv := Some df_gt;
          pred_image_level_csv := Some df_pred;
          gt_pred_image_level_merged_full_csv := None |} |}.

(** The rows of a table whose key is a key of the other table. *)
Definition matched_gt (df_gt : list GtRow) (df_pred : list PredRow) : list GtRow :=
  filter (fun g => gt_key g ∈ pred_key <$> df_pred) df_gt.
Definition matched_pred (df_gt : list GtRow) (df_pred : list PredRow) : list PredRow :=
  filter (fun p => pred_key p ∈ gt_key <$> df_gt) df_pred.

(** Equality of two cells as numbers. *)
Definition cell_eq (a b : cell) : Prop :=
  match a, b with
  | Some x, Some y => (x == y)%Q
  | None, None => True
  | _, _ => False
  end.

(** The absolute percentage error of a row, as the specification words it:
    |predicted area - ground-truth area| / ground-truth area * 100. *)
Definition ape (r : MergedRow) : Q :=
  (Qabs (m_area_px_pred r - m_area_px_gt r) / m_area_px_gt r * 100)%Q.

Definition gt_nonzero (r : MergedRow) : bool :=
  negb (Qeq_bool (m_area_px_gt r) 0).

(** MAPE as the specification words it: the mean of [ape] over the rows
    that pass the area filter and have a ground-truth area that is not
    zero; NaN when there is no such row. *)
Definition mape_spec (df_merged : list MergedRow) : cell :=
  let terms := ape <$> List.filter gt_nonzero (List.filter mask df_merged) in
  match terms with
  | [] => None
  | _ :: _ => Some (series_sum terms / inject_Z (Z.of_nat (length terms)))%Q
  end.

(** An annotation whose image id is an image id of the source. *)
Definition resolvable (coco : Coco) (ann : Annotation) : Prop :=
  Exists (fun img => id img = image_id ann) (images coco).

(** The number of annotations of a split; 0 without annotation file. *)
Definition n_annotations (dataset : gmap string Coco) (split : string) : nat :=
  match dataset !! split with
  | Some coco => length (annotations coco)
  | None => 0
  end.

(** The pixel area that [build_gt_for_split] adds for a record: its [area],
    and 0.0 when the key is absent or null. *)
Definition area_px_or_zero (ann : Annotation) : Q :=
  get_default (r_area_px (ann_row ann)) 0%Q.

(** The same for the real-world area of the attributes. *)
Definition area_m2_or_zero (ann : Annotation) : Q :=
  get_default (r_area_m2 (ann_row ann)) 0%Q.

(** The source without the annotations whose image id is no image. *)
Definition drop_dangling (coco : Coco) : Coco :=
  {| images := images coco;
     categories := categories coco;
     annotations :=
       filter (fun ann => image_id ann ∈ id <$> images coco) (annotations coco) |}.

(** The number of images of a split; 0 without annotation file. *)
Definition n_images (dataset : gmap string Coco) (split : string) : nat :=
  match dataset !! split with
  | Some coco => length (images coco)
  | None => 0
  end.

(** The paths for which the call of the service returned, each with the
    answer. *)
Definition answers (infer : string -> string -> result InferResult)
    (model_id : string) (paths : list string) : list (string * InferResult) :=
  omap (fun p => match infer p model_id with
                 | Ok res => Some (p, res)
                 | Raise _ => None
                 end) paths.

(** The confidence of a prediction, 0.0 when the key is absent. *)
Definition confidence_or_zero (p : Prediction) : Q :=
  get_default (confidence p) 0%Q.



(** ** Sample annotation sources *)

Definition img_a : Image :=
  {| id := 1; file_name := "a.jpg"; width := 640; height := 480 |}.
Definition img_b : Image :=
  {| id := 2; file_name := "b.jpg"; width := 640; height := 480 |}.

(** A box of 10 by 20 pixels on the image [image_id], without [area]. *)
Definition ann_no_area (image_id : Z) : Annotation :=
  {| image_id := image_id; category_id := 1;
     bbox := {| bx := 0; by_ := 0; bw := 10; bh := 20 |};
     area := None; attributes := None |}.

Definition solar : Category := {| cat_id := 1; name := "solar" |}.

(** One image with one box. *)
Definition coco_one_box : Coco :=
  {| images := [img_a]; categories := [solar]; annotations := [ann_no_area 1] |}.

(** Two images, the second one without any box. *)
Definition coco_negative : Coco :=
  {| images := [img_a; img_b]; categories := [solar];
     annotations := [ann_no_area 1] |}.

(** A box on image 1, then a box whose image id 99 is no image. *)
Definition coco_dangling : Coco :=
  {| images := [img_a; img_b]; categories := [solar];
     annotations := [ann_no_area 1; ann_no_area 99] |}.

(** ** Sample tables *)

Definition gt_sample (file : string) (image_id n : Z) (area_px : Q) : GtRow :=
  {| g_split := "test"; g_file_name := file; g_image_id := image_id;
     g_img_width_px := 640; g_img_height_px := 640;
     num_boxes_gt := n; area_px_gt := area_px; area_m2_gt := 0;
     has_solar_gt := bool_decide (0 < n) |}.

Definition pred_sample (file : string) (n : Z) (conf area_px : Q) : PredRow :=
  {| p_split := "test"; p_file_name := file;
     image_path := String.append "test/" file;
     num_preds := n; has_solar_pred := bool_decide (0 < n);
     max_conf_pred := conf; area_px_pred := area_px |}.

(** Image A: one object of 100 px², one prediction of 90 px².
    Image B: no object, no prediction.
    Image C: one object of 200 px², no prediction. *)
Definition three_images_gt : list GtRow :=
  [gt_sample "A.jpg" 1 1 100; gt_sample "B.jpg" 2 0 0; gt_sample "C.jpg" 3 1 200].
Definition three_images_pred : list PredRow :=
  [pred_sample "A.jpg" 1 (9 # 10) 90; pred_sample "B.jpg" 0 0 0;
   pred_sample "C.jpg" 0 0 0].

(** A computable square root for running the samples: the integer square
    root of the floor.  The theorems hold for every [np_sqrt]. *)
Definition sqrt_floor (x : Q) : Q := inject_Z (Z.sqrt (Qfloor x)).

(** A ground-truth table is there, the prediction file is not: the
    inference has not run. *)
Definition before_inference : Pipeline :=
  {| dataset_dir := Some {[ "train" := coco_negative ]};
     outputs_dir :=
       {| annotations_with_geo_csv := None;
          gt_image_level_all_images_csv := Some three_images_gt;
          pred_image_level_csv := None;
          gt_pred_image_level_merged_full_csv := None |} |}.

(** ** Further sample inputs *)

(** The rows of a call that returned; none for a call that raised. *)
Definition rows_of {A} (r : result (list A)) : list A :=
  match r with
  | Ok rows => rows
  | Raise _ => []
  end.

(** A box on image 1 with the given category and area key. *)
Definition ann_with (category_id : Z) (area : option cell) : Annotation :=
  {| image_id := 1; category_id := category_id;
     bbox := {| bx := 5; by_ := 6; bw := 10; bh := 20 |};
     area := area; attributes := None |}.

(** Two category entries with the id 1, and an annotation of category 7,
    which is no category. *)
Definition coco_categories : Coco :=
  {| images := [img_a];
     categories := [solar; {| cat_id := 1; name := "pv" |}];
     annotations := [ann_with 1 None; ann_with 7 None] |}.

(** Image 1 with an area of 50, an absent one and a null one; image 2
    without box. *)
Definition coco_areas : Coco :=
  {| images := [img_a; img_b]; categories := [solar];
     annotations := [ann_with 1 (Some (Some 50%Q)); ann_with 1 None;
                     ann_with 1 (Some None)] |}.

(** A dataset with a train and a test split, and no valid split. *)
Definition dataset_two_splits : gmap string Coco :=
  {[ "train" := coco_negative; "test" := coco_one_box ]}.

(** A dataset whose valid split has a dangling annotation. *)
Definition dataset_dangling : gmap string Coco :=
  {[ "train" := coco_negative; "valid" := coco_dangling ]}.

Definition pipeline_of (dataset : gmap string Coco) : Pipeline :=
  {| dataset_dir := Some dataset;
     outputs_dir :=
       {| annotations_with_geo_csv := None;
          gt_image_level_all_images_csv := None;
          pred_image_level_csv := None;
          gt_pred_image_level_merged_full_csv := None |} |}.

(** A service that finds one box of 10 by 9 pixels on every image, and
    fails on the image b.jpg of the train split. *)
Definition sample_infer (img_path model_id : string) : result InferResult :=
  if String.eqb img_path "data/train/b.jpg" then Raise (ValueError "timeout")
  else Ok {| predictions :=
               Some [{| confidence := Some (9 # 10);
                        pred_width := Some 10%Q; pred_height := Some 9%Q |}] |}.

(** An answer with two boxes, the second without confidence and width. *)
Definition sample_answer : InferResult :=
  {| predictions :=
       Some [{| confidence := Some (9 # 10);
                pred_width := Some 10%Q; pred_height := Some 9%Q |};
             {| confidence := None;
                pred_width := None; pred_height := Some 5%Q |}] |}.

(** * Properties *)

(** ** The two dictionaries and the group-by *)

Lemma foldl_insert_lookup_None {A V} (key : A -> Z) (val : A -> V)
    (l : list A) (m : gmap Z V) (k : Z) :
  foldl (fun m x => <[key x := val x]> m) m l !! k = None
  <-> m !! k = None /\ Forall (fun x => key x ≠ k) l.
Proof.
  revert m. induction l as [|x l IH]; intros m; simpl.
  - split; [intros H; split; [done | constructor] | by intros [H _]].
  - rewrite IH, lookup_insert_None, Forall_cons. tauto.
Qed.

Lemma images_by_id_None (coco : Coco) (k : Z) :
  images_by_id coco !! k = None <-> Forall (fun img => id img ≠ k) (images coco).
Proof.
  unfold images_by_id. rewrite foldl_insert_lookup_None, lookup_empty. tauto.
Qed.

Lemma foldl_agg_step_None (rows : list AnnRow) (m : gmap Z AggRow) (k : Z) :
  foldl agg_step m rows !! k = None
  <-> m !! k = None /\ Forall (fun r => r_image_id r ≠ k) rows.
Proof.
  revert m. induction rows as [|r rows IH]; intros m; simpl.
  - split; [intros H; split; [done | constructor] | by intros [H _]].
  - rewrite IH. unfold agg_step.
    rewrite lookup_insert_None, Forall_cons. tauto.
Qed.

Lemma groupby_agg_None (rows : list AnnRow) (k : Z) :
  groupby_agg rows !! k = None <-> Forall (fun r => r_image_id r ≠ k) rows.
Proof.
  unfold groupby_agg. rewrite foldl_agg_step_None, lookup_empty. tauto.
Qed.

(** ** The annotation parser *)

(** The fallback of [parse_coco_split]: a record without [area] gets the
    product of the width and the height of its box. *)
Lemma parse_annotation_area_fallback split imgs cats ann row :
  area ann = None ->
  parse_annotation split imgs cats ann = Ok row ->
  o_area_px row = Some (bw (bbox ann) * bh (bbox ann))%Q
  /\ o_width_px row = bw (bbox ann) /\ o_height_px row = bh (bbox ann).
Proof.
  intros Ha. unfold parse_annotation. rewrite Ha.
  destruct (imgs !! image_id ann); [|discriminate].
  intros [= <-]. simpl. auto.
Qed.

(** The fallback of [build_gt_for_split]: a record without [area] counts
    for 0.0 in the sum. *)
Lemma ann_row_area_fallback ann :
  area ann = None -> r_area_px (ann_row ann) = Some 0%Q.
Proof. intros Ha. unfold ann_row. simpl. by rewrite Ha. Qed.

Lemma parse_annotation_Ok split imgs cats ann :
  is_Some (imgs !! image_id ann) ->
  exists row, parse_annotation split imgs cats ann = Ok row.
Proof.
  intros [img Himg]. unfold parse_annotation. rewrite Himg. eauto.
Qed.

Lemma parse_annotation_Raise split imgs cats ann :
  imgs !! image_id ann = None ->
  parse_annotation split imgs cats ann = Raise (KeyError_int (image_id ann)).
Proof. intros Himg. unfold parse_annotation. by rewrite Himg. Qed.

Lemma parse_annotations_Ok split imgs cats anns rows :
  Forall (fun ann => is_Some (imgs !! image_id ann)) anns ->
  exists rows', parse_annotations split imgs cats anns rows = Ok (rows ++ rows')
                /\ length rows' = length anns.
Proof.
  revert rows. induction anns as [|ann anns IH]; intros rows Hall; simpl.
  - exists []. by rewrite app_nil_r.
  - apply Forall_cons in Hall as [Hann Hall].
    destruct (parse_annotation_Ok split imgs cats ann Hann) as [row ->].
    simpl. destruct (IH (rows ++ [row]) Hall) as (rows' & -> & Hlen).
    exists (row :: rows'). rewrite <- app_assoc. simpl. split; [done | lia].
Qed.

Lemma parse_annotations_Raise split imgs cats anns rows :
  Exists (fun ann => imgs !! image_id ann = None) anns ->
  exists ann, ann ∈ anns /\ imgs !! image_id ann = None
              /\ parse_annotations split imgs cats anns rows
                 = Raise (KeyError_int (image_id ann)).
Proof.
  revert rows. induction anns as [|ann anns IH]; intros rows Hex.
  - by apply Exists_nil in Hex.
  - simpl. destruct (imgs !! image_id ann) as [img|] eqn:Himg.
    + apply Exists_cons in Hex as [Hex | Hex]; [congruence|].
      destruct (parse_annotation_Ok split imgs cats ann) as [row ->]; [by eauto|].
      simpl. destruct (IH (rows ++ [row]) Hex) as (ann' & Hin & Hnone & ->).
      exists ann'. split; [by apply list_elem_of_further | done].
    + exists ann. rewrite parse_annotation_Raise by done. simpl.
      split; [apply list_elem_of_here | done].
Qed.

(** The rows that the loop appends are the rows of the annotations, in
    order. *)
Lemma parse_annotations_rows split imgs cats anns rows out :
  parse_annotations split imgs cats anns rows = Ok out ->
  exists rows', out = rows ++ rows'
    /\ Forall2 (fun ann row => parse_annotation split imgs cats ann = Ok row)
               anns rows'.
Proof.
  revert rows. induction anns as [|ann anns IH]; intros rows; simpl.
  - intros [= <-]. exists []. by rewrite app_nil_r.
  - destruct (parse_annotation split imgs cats ann) as [row|e] eqn:Hrow;
      [|discriminate]. simpl.
    intros H. apply IH in H as (rows' & -> & Hall).
    exists (row :: rows'). rewrite <- app_assoc. split; [done|].
    by constructor.
Qed.

(** In the object-level table every record without [area] has the product
    of the width and the height of its box as its area. *)
Lemma parse_coco_split_area_fallback split (dataset : gmap string Coco) coco rows :
  dataset !! split = Some coco ->
  parse_coco_split split dataset = Ok rows ->
  Forall2 (fun ann row =>
             area ann = None ->
             o_area_px row = Some (o_width_px row * o_height_px row)%Q
             /\ o_width_px row = bw (bbox ann) /\ o_height_px row = bh (bbox ann))
          (annotations coco) rows.
Proof.
  intros Hds. unfold parse_coco_split. rewrite Hds. intros H.
  apply parse_annotations_rows in H as (rows' & -> & Hall). simpl.
  eapply Forall2_impl; [exact Hall|]. intros ann row Hrow Ha. simpl in Hrow.
  destruct (parse_annotation_area_fallback _ _ _ _ _ Ha Hrow) as (H1 & H2 & H3).
  by rewrite H2, H3.
Qed.

(** When every record omits [area], every group of [agg] sums to 0.0. *)
Lemma foldl_agg_step_area_zero (rows : list AnnRow) (m : gmap Z AggRow) :
  Forall (fun r => r_area_px r = Some 0%Q) rows ->
  map_Forall (fun _ a => a_area_px a = 0%Q) m ->
  map_Forall (fun _ a => a_area_px a = 0%Q) (foldl agg_step m rows).
Proof.
  intros Hrows. revert m. induction Hrows as [|r rows Hr _ IH]; intros m Hm; [done|].
  simpl. apply IH. unfold agg_step. apply map_Forall_insert_2; [|done].
  unfold agg_add. simpl. rewrite Hr. simpl.
  destruct (m !! r_image_id r) as [a|] eqn:Ha; simpl; [|reflexivity].
  by rewrite (Hm _ _ Ha).
Qed.

Lemma merge_left_fill_area_zero split (agg : gmap Z AggRow) img :
  map_Forall (fun _ a => a_area_px a = 0%Q) agg ->
  (area_px_gt ∘ merge_left_fill split agg) img = 0%Q.
Proof.
  intros Hagg. unfold merge_left_fill. simpl.
  destruct (agg !! id img) as [a|] eqn:Ha; [|reflexivity]. exact (Hagg _ _ Ha).
Qed.

(** In the image-level table of a source whose records all omit [area],
    every pixel area is 0.0, whatever the boxes are. *)
Lemma build_gt_for_split_area_omitted split (dataset : gmap string Coco) coco rows :
  dataset !! split = Some coco ->
  Forall (fun ann => area ann = None) (annotations coco) ->
  build_gt_for_split split dataset = Ok rows ->
  Forall (fun g => area_px_gt g = 0%Q) rows.
Proof.
  intros Hds Hall. unfold build_gt_for_split. rewrite Hds.
  destruct (annotations coco) as [|ann anns] eqn:Hanns.
  - intros [= <-]. apply Forall_fmap, Forall_forall. by intros img _.
  - destruct (images coco) as [|img0 imgs]; [discriminate|].
    intros [= <-].
    change (Forall (fun g => area_px_gt g = 0%Q)
              (merge_left_fill split (groupby_agg (ann_row <$> ann :: anns))
                 <$> img0 :: imgs)).
    apply Forall_fmap, Forall_forall. intros img _.
    apply (merge_left_fill_area_zero split), foldl_agg_step_area_zero;
      [|apply map_Forall_empty].
    apply Forall_fmap. eapply Forall_impl; [exact Hall|].
    intros a' Ha'. by apply ann_row_area_fallback.
Qed.

(** An image without a group in [agg] gets the filled values. *)
Lemma merge_left_fill_None split (agg : gmap Z AggRow) img :
  agg !! id img = None ->
  merge_left_fill split agg img = gt_row split img 0 0%Q 0%Q false.
Proof. intros H. unfold merge_left_fill. by rewrite H. Qed.

(** C1, on a record without [area]: the area used should be the width of
    the box times its height in both tables.  [parse_coco_split] puts
    10 * 20 in the object-level table, but [build_gt_for_split] sums 0.0 for
    the same record: the image-level pixel area of the image is 0 although
    the image has one box. *)
Theorem C1_image_level_area_fallback_is_zero :
  area (ann_no_area 1) = None
  /\ (exists row,
        parse_coco_split "train" {[ "train" := coco_one_box ]} = Ok [row]
        /\ o_area_px row = Some (10 * 20)%Q)
  /\ (exists g,
        build_gt_for_split "train" {[ "train" := coco_one_box ]} = Ok [g]
        /\ num_boxes_gt g = 1 /\ has_solar_gt g = true
        /\ area_px_gt g = 0%Q /\ ~ (area_px_gt g == 10 * 20)%Q).
Proof.
  split; [reflexivity|]. split.
  - eexists. split; vm_compute; reflexivity.
  - eexists. split; [vm_compute; reflexivity|].
    repeat split; try reflexivity. simpl. intros H. discriminate H.
Qed.

(** C2. An image of the source that no annotation refers to still has its
    row in the table of [build_gt_for_split], at the position of the image:
    the table has one row per image entry, each row at the position of its
    image, and the row of such an image has count 0, both area sums 0.0 and
    the flag false. *)
Theorem C2_negative_image_row (split : string) (dataset : gmap string Coco)
    (coco : Coco) (i : nat) (img : Image) :
  dataset !! split = Some coco ->
  images coco !! i = Some img ->
  Forall (fun ann => image_id ann ≠ id img) (annotations coco) ->
  exists rows,
    build_gt_for_split split dataset = Ok rows
    /\ length rows = length (images coco)
    /\ rows !! i = Some (gt_row split img 0 0%Q 0%Q false)
    /\ (forall j row, rows !! j = Some row ->
          exists img', images coco !! j = Some img'
                       /\ g_image_id row = id img'
                       /\ g_file_name row = file_name img').
Proof.
  intros Hds Hi Hno. unfold build_gt_for_split. rewrite Hds.
  destruct (annotations coco) as [|ann anns] eqn:Hanns.
  - eexists. split; [reflexivity|].
    rewrite length_fmap, list_lookup_fmap, Hi. repeat split.
    intros j row Hj. apply list_lookup_fmap_Some in Hj as (img' & -> & Hj).
    by exists img'.
  - destruct (images coco) as [|img0 imgs] eqn:Himgs; [done|].
    assert (groupby_agg (ann_row <$> ann :: anns) !! id img = None) as Hagg.
    { apply groupby_agg_None, Forall_fmap.
      eapply Forall_impl; [exact Hno|]. by intros a Ha. }
    eexists. split; [reflexivity|].
    rewrite length_fmap, list_lookup_fmap, Hi. split; [done|]. split.
    + apply (f_equal Some), merge_left_fill_None, Hagg.
    + intros j row Hj. apply list_lookup_fmap_Some in Hj as (img' & -> & Hj).
      by exists img'.
Qed.

Lemma C2_negative_image_row_witness :
  exists rows,
    build_gt_for_split "train" {[ "train" := coco_negative ]} = Ok rows
    /\ length rows = 2%nat
    /\ rows !! 1%nat = Some (gt_row "train" img_b 0 0%Q 0%Q false).
Proof.
  destruct (C2_negative_image_row "train" {[ "train" := coco_negative ]}
              coco_negative 1 img_b) as (rows & Hrows & Hlen & Hrow & _).
  - reflexivity.
  - reflexivity.
  - repeat constructor. simpl. lia.
  - by exists rows.
Defined.

(** C9. [parse_coco_split] returns a table exactly when every annotation
    refers to an image of the source: it then has a row per annotation.
    As soon as one annotation has an image id that is no image, the call
    raises the [KeyError] of that id; it neither skips the record nor
    returns rows. *)
Theorem C9_parse_coco_split_dangling_image_id (split : string)
    (dataset : gmap string Coco) (coco : Coco) :
  dataset !! split = Some coco ->
  (Forall (fun ann => Exists (fun img => id img = image_id ann) (images coco))
          (annotations coco) ->
   exists rows, parse_coco_split split dataset = Ok rows
                /\ length rows = length (annotations coco))
  /\ (Exists (fun ann => Forall (fun img => id img ≠ image_id ann) (images coco))
             (annotations coco) ->
      exists k, parse_coco_split split dataset = Raise (KeyError_int k)
                /\ Forall (fun img => id img ≠ k) (images coco)).
Proof.
  intros Hds. unfold parse_coco_split. rewrite Hds. split.
  - intros Hall.
    destruct (parse_annotations_Ok split (images_by_id coco) (cats_by_id coco)
                (annotations coco) []) as (rows & -> & Hlen).
    + eapply Forall_impl; [exact Hall|]. intros ann Hex. simpl in Hex.
      destruct (images_by_id coco !! image_id ann) eqn:E; [by eauto|].
      apply images_by_id_None in E. apply Exists_exists in Hex as (img & Hin & Hid).
      rewrite Forall_forall in E. by destruct (E img Hin).
    + by exists rows.
  - intros Hex.
    destruct (parse_annotations_Raise split (images_by_id coco) (cats_by_id coco)
                (annotations coco) []) as (ann & _ & Hnone & ->).
    + eapply Exists_impl; [exact Hex|]. intros ann Hall. simpl in Hall.
      by apply images_by_id_None.
    + exists (image_id ann). split; [done|]. by apply images_by_id_None.
Qed.

Lemma C9_parse_coco_split_dangling_image_id_witness :
  exists k,
    parse_coco_split "train" {[ "train" := coco_dangling ]} = Raise (KeyError_int k)
    /\ Forall (fun img => id img ≠ k) (images coco_dangling).
Proof.
  apply (C9_parse_coco_split_dangling_image_id "train"
           {[ "train" := coco_dangling ]} coco_dangling).
  - reflexivity.
  - apply Exists_cons_tl, Exists_cons_hd. repeat constructor; simpl; lia.
Defined.

(** The caller does not handle the exception: [extract_object_level_gt]
    passes it on and writes no file. *)
Example extract_object_level_gt_dangling :
  let self := {| dataset_dir := Some {[ "train" := coco_dangling ]};
                 outputs_dir := outputs_dir (pipeline_with [] []) |} in
  extract_object_level_gt self = (Raise (KeyError_int 99), self).
Proof. vm_compute. reflexivity. Qed.

(** ** The evaluator: classification metrics *)

Lemma count_rows_nonneg cond df : 0 <= count_rows cond df.
Proof. unfold count_rows. lia. Qed.

(** Every row is in exactly one cell of the confusion matrix. *)
Lemma confusion_counts_total (df : list MergedRow) :
  calc_tp df + calc_tn df + calc_fp df + calc_fn df = Z.of_nat (length df).
Proof.
  unfold calc_tp, calc_tn, calc_fp, calc_fn, count_rows.
  induction df as [|r df IH]; [reflexivity|].
  cbn [List.filter length].
  destruct (m_has_solar_gt r), (m_has_solar_pred r); cbn [Bool.eqb andb length]; lia.
Qed.

Lemma calc_tp_nonneg df : 0 <= calc_tp df.
Proof. apply count_rows_nonneg. Qed.
Lemma calc_tn_nonneg df : 0 <= calc_tn df.
Proof. apply count_rows_nonneg. Qed.
Lemma calc_fp_nonneg df : 0 <= calc_fp df.
Proof. apply count_rows_nonneg. Qed.
Lemma calc_fn_nonneg df : 0 <= calc_fn df.
Proof. apply count_rows_nonneg. Qed.

Create HintDb counts.
#[local] Hint Resolve calc_tp_nonneg calc_tn_nonneg calc_fp_nonneg
  calc_fn_nonneg Z.add_nonneg_nonneg : counts.

Lemma eps_pos : (0 < eps)%Q.
Proof. reflexivity. Qed.

Lemma inject_Z_nonneg (z : Z) : 0 <= z -> (0 <= inject_Z z)%Q.
Proof. intros H. change 0%Q with (inject_Z 0). by rewrite <- Zle_Qle. Qed.

Lemma den_pos (z : Z) : 0 <= z -> (0 < inject_Z z + eps)%Q.
Proof. intros H. pose proof (inject_Z_nonneg z H). pose proof eps_pos. lra. Qed.

(** A ratio of a part to a positive whole that contains it. *)
Lemma ratio_bounds (a d : Q) :
  (0 <= a)%Q -> (a <= d)%Q -> (0 < d)%Q -> (0 <= a / d <= 1)%Q.
Proof.
  intros Ha Had Hd. split.
  - apply Qle_shift_div_l; [done | lra].
  - apply Qle_shift_div_r; [done | lra].
Qed.

Lemma count_ratio_bounds (a b : Z) :
  0 <= a -> 0 <= b -> (0 <= inject_Z a / (inject_Z (a + b) + eps) <= 1)%Q.
Proof.
  intros Ha Hb.
  pose proof (inject_Z_nonneg a Ha). pose proof (inject_Z_nonneg b Hb).
  pose proof eps_pos.
  apply ratio_bounds; [done | | apply den_pos; lia].
  rewrite inject_Z_plus. lra.
Qed.

Lemma precision_bounds df : (0 <= calc_precision df <= 1)%Q.
Proof.
  unfold calc_precision, precision_den.
  apply count_ratio_bounds; auto with counts.
Qed.

Lemma recall_bounds df : (0 <= calc_recall df <= 1)%Q.
Proof.
  unfold calc_recall, recall_den.
  apply count_ratio_bounds; auto with counts.
Qed.

Lemma accuracy_bounds df : (0 <= calc_accuracy df <= 1)%Q.
Proof.
  unfold calc_accuracy, accuracy_den.
  replace (calc_tp df + calc_tn df + calc_fp df + calc_fn df)
    with ((calc_tp df + calc_tn df) + (calc_fp df + calc_fn df)) by lia.
  apply count_ratio_bounds; auto with counts.
Qed.

Lemma f1_den_pos df : (0 < f1_den df)%Q.
Proof.
  unfold f1_den. pose proof (precision_bounds df). pose proof (recall_bounds df).
  pose proof eps_pos. lra.
Qed.

Lemma f1_bounds df : (0 <= calc_f1 df <= 1)%Q.
Proof.
  pose proof (precision_bounds df) as [Hp0 Hp1].
  pose proof (recall_bounds df) as [Hr0 Hr1].
  pose proof eps_pos as He.
  unfold calc_f1. apply ratio_bounds; [| | apply f1_den_pos].
  - nra.
  - unfold f1_den. nra.
Qed.

(** C7. The four counts of the confusion matrix add up to the number of rows
    of the merged table, which is the value reported as [total_images]. *)
Theorem C7_confusion_counts_total (np_sqrt : Q -> Q) (df_merged : list MergedRow) :
  let m := metrics np_sqrt df_merged in
  tp m + tn m + fp m + fn m = total_images m
  /\ total_images m = Z.of_nat (length df_merged).
Proof.
  simpl. split; [|reflexivity]. apply confusion_counts_total.
Qed.

(** C6. For every merged table the four denominators are positive, so no
    division is by zero, and precision, recall, F1 and accuracy are in
    [0, 1]; this includes the table without rows and the tables where a
    class is absent. *)
Theorem C6_classification_metrics_in_unit_interval
    (np_sqrt : Q -> Q) (df_merged : list MergedRow) :
  let m := metrics np_sqrt df_merged in
  ((0 < precision_den df_merged)%Q /\ (0 < recall_den df_merged)%Q
   /\ (0 < f1_den df_merged)%Q /\ (0 < accuracy_den df_merged)%Q)
  /\ (0 <= precision m <= 1)%Q /\ (0 <= recall m <= 1)%Q
  /\ (0 <= f1_score m <= 1)%Q /\ (0 <= accuracy m <= 1)%Q.
Proof.
  cbn [metrics precision recall f1_score accuracy].
  pose proof (precision_bounds df_merged) as [? ?].
  pose proof (recall_bounds df_merged) as [? ?].
  pose proof (f1_bounds df_merged) as [? ?].
  pose proof (accuracy_bounds df_merged) as [? ?].
  repeat split; try done; try apply f1_den_pos;
    apply den_pos; auto with counts.
Qed.

(** ** The evaluator: the merge *)

Lemma evaluate_predictions_Ok np_sqrt self df_gt df_pred :
  gt_image_level_all_images_csv (outputs_dir self) = Some df_gt ->
  pred_image_level_csv (outputs_dir self) = Some df_pred ->
  evaluate_predictions np_sqrt self
  = (Ok (metrics np_sqrt (pd_merge_inner df_gt df_pred)),
     write_merged self (pd_merge_inner df_gt df_pred)).
Proof. intros Hg Hp. unfold evaluate_predictions. by rewrite Hg, Hp. Qed.

Lemma join_row_key g p : merged_key (join_row g p) = gt_key g.
Proof. reflexivity. Qed.

Lemma elem_of_pd_merge_inner df_gt df_pred r :
  r ∈ pd_merge_inner df_gt df_pred
  <-> exists g p, g ∈ df_gt /\ p ∈ df_pred /\ pred_key p = gt_key g
                  /\ r = join_row g p.
Proof.
  unfold pd_merge_inner. rewrite list_elem_of_bind. split.
  - intros (g & Hr & Hg). apply list_elem_of_bind in Hr as (p & Hr & Hp).
    apply list_elem_of_filter in Hp as [Hk Hp].
    apply list_elem_of_singleton in Hr. by exists g, p.
  - intros (g & p & Hg & Hp & Hk & ->). exists g. split; [|done].
    apply list_elem_of_bind. exists p. split; [apply list_elem_of_here|].
    by apply list_elem_of_filter.
Qed.

Lemma filter_key_unmatched (df_pred : list PredRow) (k : string * string) :
  k ∉ pred_key <$> df_pred -> filter (fun p => pred_key p = k) df_pred = [].
Proof.
  intros Hk. induction df_pred as [|p l IH]; [done|].
  rewrite fmap_cons, not_elem_of_cons in Hk. destruct Hk as [Hne Hk].
  rewrite filter_cons_False by congruence. by apply IH.
Qed.

Lemma filter_key_matched (keys : list (string * string))
    (df_pred : list PredRow) (k : string * string) :
  k ∈ keys ->
  filter (fun p => pred_key p = k) (filter (fun p => pred_key p ∈ keys) df_pred)
  = filter (fun p => pred_key p = k) df_pred.
Proof.
  intros Hk. induction df_pred as [|p l IH]; [done|].
  destruct (decide (pred_key p = k)) as [Heq|Hne].
  - rewrite (filter_cons_True (fun p => pred_key p ∈ keys)) by by rewrite Heq.
    rewrite !(filter_cons_True (fun p => pred_key p = k)) by done.
    by rewrite IH.
  - rewrite (filter_cons_False (fun p => pred_key p = k) p l) by done.
    destruct (decide (pred_key p ∈ keys)).
    + rewrite (filter_cons_True (fun p => pred_key p ∈ keys)) by done.
      by rewrite filter_cons_False.
    + by rewrite (filter_cons_False (fun p => pred_key p ∈ keys)).
Qed.

Lemma pd_merge_inner_matched_aux (keys : list (string * string))
    (l : list GtRow) (df_pred : list PredRow) :
  Forall (fun g => gt_key g ∈ keys) l ->
  pd_merge_inner (filter (fun g => gt_key g ∈ pred_key <$> df_pred) l)
                 (filter (fun p => pred_key p ∈ keys) df_pred)
  = pd_merge_inner l df_pred.
Proof.
  unfold pd_merge_inner. induction l as [|g l IH]; intros Hall; [done|].
  apply Forall_cons in Hall as [Hg Hall]. specialize (IH Hall).
  rewrite (bind_cons _ g l).
  destruct (decide (gt_key g ∈ pred_key <$> df_pred)) as [Hin|Hnin].
  - rewrite filter_cons_True by done. rewrite bind_cons, IH.
    by rewrite filter_key_matched.
  - rewrite filter_cons_False by done. rewrite IH.
    by rewrite (filter_key_unmatched df_pred (gt_key g)).
Qed.

Lemma pd_merge_inner_matched df_gt df_pred :
  pd_merge_inner (matched_gt df_gt df_pred) (matched_pred df_gt df_pred)
  = pd_merge_inner df_gt df_pred.
Proof.
  apply pd_merge_inner_matched_aux, Forall_forall.
  intros g Hg. by apply list_elem_of_fmap_2.
Qed.

(** C5. The merged table is the inner join of the two tables on
    (split, file name): its rows are the joins of the pairs of rows with
    equal keys.  The key of a merged row is a key of both tables, so an
    image that only one table has is in no merged row; and the evaluator
    returns the same metrics and writes the same merged table when the
    unmatched rows are removed from both tables beforehand. *)
Theorem C5_merge_is_inner_join (df_gt : list GtRow) (df_pred : list PredRow) :
  let df_merged := pd_merge_inner df_gt df_pred in
  (forall r, r ∈ df_merged
     <-> exists g p, g ∈ df_gt /\ p ∈ df_pred /\ pred_key p = gt_key g
                     /\ r = join_row g p)
  /\ (forall r, r ∈ df_merged ->
        merged_key r ∈ gt_key <$> df_gt /\ merged_key r ∈ pred_key <$> df_pred)
  /\ pd_merge_inner (matched_gt df_gt df_pred) (matched_pred df_gt df_pred)
     = df_merged
  /\ (forall np_sqrt,
        (evaluate_predictions np_sqrt
           (pipeline_with (matched_gt df_gt df_pred) (matched_pred df_gt df_pred))).1
        = (evaluate_predictions np_sqrt (pipeline_with df_gt df_pred)).1).
Proof.
  cbv zeta. split; [apply elem_of_pd_merge_inner|]. split; [|split].
  - intros r Hr. apply elem_of_pd_merge_inner in Hr as (g & p & Hg & Hp & Hk & ->).
    rewrite join_row_key. split; [by apply list_elem_of_fmap_2|].
    rewrite <- Hk. by apply list_elem_of_fmap_2.
  - apply pd_merge_inner_matched.
  - intros np_sqrt.
    unfold evaluate_predictions, pipeline_with.
    cbn [outputs_dir gt_image_level_all_images_csv pred_image_level_csv fst].
    by rewrite pd_merge_inner_matched.
Qed.

(** ** The evaluator: area metrics *)

(** The values that the mean of [rel_err * 100] averages. *)
Lemma rel_err_defined_terms (df : list MergedRow) :
  omap (fun c : cell => c) (cell_scale 100 <$> rel_err df)
  = ape <$> List.filter gt_nonzero (List.filter mask df).
Proof.
  unfold rel_err, abs_err, area_pred, area_gt, replace_zero_nan.
  induction (List.filter mask df) as [|r l IH]; [reflexivity|].
  cbn [fmap list_fmap zip_with omap list_omap List.filter] in *.
  unfold gt_nonzero at 1.
  destruct (Qeq_bool (m_area_px_gt r) 0); cbn [negb cell_div cell_scale fmap option_fmap option_map].
  - exact IH.
  - rewrite fmap_cons. f_equal. exact IH.
Qed.

Lemma mape_mape_spec (df : list MergedRow) : mape df = mape_spec df.
Proof. unfold mape, mape_spec, series_mean. by rewrite rel_err_defined_terms. Qed.

Lemma filter_mask_nil (df : list MergedRow) :
  Forall (fun r => mask r = false) df -> List.filter mask df = [].
Proof.
  induction 1 as [|r l Hr _ IH]; [reflexivity|]. simpl. by rewrite Hr.
Qed.

Lemma filter_gt_nonzero_nil (df : list MergedRow) :
  Forall (fun r => mask r = true -> (m_area_px_gt r == 0)%Q) df ->
  List.filter gt_nonzero (List.filter mask df) = [].
Proof.
  induction 1 as [|r l Hr _ IH]; [reflexivity|]. simpl.
  destruct (mask r) eqn:Hm; [|exact IH]. simpl.
  unfold gt_nonzero at 1. apply Qeq_bool_iff in Hr; [|done]. by rewrite Hr.
Qed.

(** C4. The MAPE of the evaluator is the mean of
    |predicted - ground truth| / ground truth * 100 over the rows that pass
    the area filter and have a ground-truth area that is not zero (NaN when
    there is none).  A row with ground-truth area 0 adds no term: taking it
    out of the table leaves the MAPE as it is. *)
Theorem C4_mape_skips_zero_ground_truth (np_sqrt : Q -> Q) (df_merged : list MergedRow) :
  mape_percent (metrics np_sqrt df_merged) = mape_spec df_merged
  /\ (forall df1 r df2,
        df_merged = df1 ++ r :: df2 -> (m_area_px_gt r == 0)%Q ->
        mape_percent (metrics np_sqrt df_merged)
        = mape_percent (metrics np_sqrt (df1 ++ df2))).
Proof.
  cbn [mape_percent metrics]. split; [apply mape_mape_spec|].
  intros df1 r df2 -> Hr. rewrite !mape_mape_spec. unfold mape_spec.
  rewrite !List.filter_app. cbn [List.filter].
  destruct (mask r); [|reflexivity]. cbn [List.filter].
  assert (gt_nonzero r = false) as ->; [|reflexivity].
  unfold gt_nonzero. apply Qeq_bool_iff in Hr. by rewrite Hr.
Qed.

(** C3 as stated does not hold: on the three images the evaluator does not
    return an accuracy equal to 2/3, whatever the square root is. *)
Lemma C3_accuracy_is_not_two_thirds :
  ~ exists (np_sqrt : Q -> Q) (m : Metrics) (self' : Pipeline),
      evaluate_predictions np_sqrt (pipeline_with three_images_gt three_images_pred)
      = (Ok m, self')
      /\ tp m = 1 /\ tn m = 1 /\ fn m = 1 /\ fp m = 0
      /\ (accuracy m == 2 # 3)%Q
      /\ cell_eq (mae_px2 m) (Some 105%Q).
Proof.
  intros (np_sqrt & m & self' & Hev & _ & _ & _ & _ & Hacc & _).
  unfold evaluate_predictions in Hev. simpl in Hev.
  injection Hev as <- _. vm_compute in Hacc. discriminate Hacc.
Qed.

(** C3 (amended). On the three images the evaluator returns tp=1, tn=1,
    fn=1, fp=0; the accuracy is 2 / (3 + eps), which is not 2/3 but within
    eps of it; and the MAE, over the two images A and C that pass the area
    filter, is 105. *)
Theorem C3_three_images_scenario (np_sqrt : Q -> Q) :
  exists m,
    evaluate_predictions np_sqrt (pipeline_with three_images_gt three_images_pred)
    = (Ok m,
       write_merged (pipeline_with three_images_gt three_images_pred)
         (pd_merge_inner three_images_gt three_images_pred))
    /\ tp m = 1 /\ tn m = 1 /\ fn m = 1 /\ fp m = 0
    /\ (accuracy m == 2 / (3 + eps))%Q
    /\ (Qabs (accuracy m - (2 # 3)) < eps)%Q
    /\ num_images_area_eval m = 2
    /\ cell_eq (mae_px2 m) (Some 105%Q).
Proof.
  eexists. split; [reflexivity|].
  repeat split; vm_compute; reflexivity.
Qed.

(** The MAPE is not the mean that counts a row with ground-truth area 0 as
    0 %: with one row of error 10 % and one filtered row of ground-truth
    area 0, the MAPE is 10, not 5. *)
Example mape_is_not_the_zero_percent_mean :
  let df := pd_merge_inner
              [gt_sample "A.jpg" 1 1 100; gt_sample "B.jpg" 2 0 0]
              [pred_sample "A.jpg" 1 (9 # 10) 90; pred_sample "B.jpg" 1 (1 # 2) 50] in
  cell_eq (mape df) (Some 10%Q)
  /\ (List.filter mask df = df)
  /\ ~ cell_eq (mape df) (Some ((10 + 0) / 2)%Q).
Proof.
  cbv zeta. split; [vm_compute; reflexivity|]. split; [vm_compute; reflexivity|].
  vm_compute. discriminate.
Qed.

(** C10. When both tables exist, [evaluate_predictions] returns metrics and
    writes the merged table.  If no merged row passes the area filter, the
    MAE, the RMSE and the MAPE are NaN and no image is counted for the area
    evaluation; and the MAPE is NaN whenever no row that passes the filter
    has a ground-truth area other than zero. *)
Theorem C10_area_metrics_nan_on_empty_selection (np_sqrt : Q -> Q)
    (self : Pipeline) (df_gt : list GtRow) (df_pred : list PredRow) :
  gt_image_level_all_images_csv (outputs_dir self) = Some df_gt ->
  pred_image_level_csv (outputs_dir self) = Some df_pred ->
  let df_merged := pd_merge_inner df_gt df_pred in
  exists m,
    evaluate_predictions np_sqrt self = (Ok m, write_merged self df_merged)
    /\ (Forall (fun r => mask r = false) df_merged ->
        mae_px2 m = None /\ rmse_px2 m = None /\ mape_percent m = None
        /\ num_images_area_eval m = 0)
    /\ (Forall (fun r => mask r = true -> (m_area_px_gt r == 0)%Q) df_merged ->
        mape_percent m = None).
Proof.
  intros Hg Hp df_merged. exists (metrics np_sqrt df_merged).
  split; [by apply evaluate_predictions_Ok|]. cbn [metrics mae_px2 rmse_px2
    mape_percent num_images_area_eval]. split.
  - intros Hall. apply filter_mask_nil in Hall.
    unfold mae, rmse, mape, rel_err, abs_err, sq_err, area_pred, area_gt, count_rows.
    by rewrite Hall.
  - intros Hall. rewrite mape_mape_spec. unfold mape_spec.
    by rewrite filter_gt_nonzero_nil.
Qed.

Lemma C10_area_metrics_nan_on_empty_selection_witness :
  exists m,
    evaluate_predictions sqrt_floor
      (pipeline_with [gt_sample "B.jpg" 2 0 0] [pred_sample "B.jpg" 0 0 0])
    = (Ok m,
       write_merged
         (pipeline_with [gt_sample "B.jpg" 2 0 0] [pred_sample "B.jpg" 0 0 0])
         (pd_merge_inner [gt_sample "B.jpg" 2 0 0] [pred_sample "B.jpg" 0 0 0]))
    /\ total_images m = 1
    /\ mae_px2 m = None /\ rmse_px2 m = None /\ mape_percent m = None.
Proof.
  destruct (C10_area_metrics_nan_on_empty_selection sqrt_floor
              (pipeline_with [gt_sample "B.jpg" 2 0 0] [pred_sample "B.jpg" 0 0 0])
              [gt_sample "B.jpg" 2 0 0] [pred_sample "B.jpg" 0 0 0]
              eq_refl eq_refl) as (m & Hev & Hnan & _).
  exists m. split; [exact Hev|].
  destruct Hnan as (Hmae & Hrmse & Hmape & _).
  - repeat constructor.
  - split; [|done]. unfold evaluate_predictions in Hev. simpl in Hev.
    by injection Hev as <-.
Defined.

(** ** Missing prerequisites *)

(** [extract_object_level_gt] before the download: the error, and nothing
    written. *)
Lemma extract_object_level_gt_not_downloaded (self : Pipeline) :
  dataset_dir self = None ->
  exists msg, extract_object_level_gt self = (Raise (ValueError msg), self).
Proof. intros H. unfold extract_object_level_gt. rewrite H. eauto. Qed.

(** C8. If the ground-truth file or the prediction file is absent,
    [evaluate_predictions] raises a [ValueError] and the output directory is
    as before: no merged table is written, and no metrics are returned. *)
Theorem C8_evaluate_predictions_missing_artifact (np_sqrt : Q -> Q)
    (self : Pipeline) :
  gt_image_level_all_images_csv (outputs_dir self) = None
  \/ pred_image_level_csv (outputs_dir self) = None ->
  evaluate_predictions np_sqrt self = (Raise (ValueError not_found), self).
Proof.
  intros [H | H]; unfold evaluate_predictions; rewrite H; [done|].
  by destruct (gt_image_level_all_images_csv (outputs_dir self)).
Qed.

Lemma C8_evaluate_predictions_missing_artifact_witness :
  evaluate_predictions sqrt_floor before_inference
  = (Raise (ValueError not_found), before_inference).
Proof.
  apply (C8_evaluate_predictions_missing_artifact sqrt_floor before_inference).
  right. reflexivity.
Defined.

(** * Further properties *)

(** ** Dictionaries built by a comprehension *)

Lemma foldl_insert_lookup_ne {A V} (key : A -> Z) (val : A -> V)
    (l : list A) (m : gmap Z V) (k : Z) :
  Forall (fun x => key x ≠ k) l ->
  foldl (fun m x => <[key x := val x]> m) m l !! k = m !! k.
Proof.
  intros Hl. revert m. induction Hl as [|x l Hx _ IH]; intros m; simpl; [done|].
  by rewrite IH, lookup_insert_ne.
Qed.

(** The last entry with a key is the one that a lookup finds. *)
Lemma foldl_insert_lookup_last {A V} (key : A -> Z) (val : A -> V)
    (l1 l2 : list A) (x : A) (m : gmap Z V) :
  Forall (fun y => key y ≠ key x) l2 ->
  foldl (fun m x => <[key x := val x]> m) m (l1 ++ x :: l2) !! key x
  = Some (val x).
Proof.
  intros Hl2. rewrite foldl_app. simpl.
  rewrite foldl_insert_lookup_ne by done. apply lookup_insert_eq.
Qed.

Lemma cats_by_id_None (coco : Coco) (k : Z) :
  cats_by_id coco !! k = None
  <-> Forall (fun cat => cat_id cat ≠ k) (categories coco).
Proof.
  unfold cats_by_id. rewrite foldl_insert_lookup_None, lookup_empty. tauto.
Qed.

(** ** More on [parse_coco_split] *)

Lemma parse_coco_split_rows split (dataset : gmap string Coco) coco rows :
  dataset !! split = Some coco ->
  parse_coco_split split dataset = Ok rows ->
  Forall2 (fun ann row =>
             parse_annotation split (images_by_id coco) (cats_by_id coco) ann
             = Ok row)
          (annotations coco) rows.
Proof.
  intros Hds. unfold parse_coco_split. rewrite Hds. intros H.
  by apply parse_annotations_rows in H as (rows' & -> & Hall).
Qed.

(** The category name of every row of the object-level table: the name of
    the last category entry with the id of the annotation, and
    ["class_<id>"] with the decimal id when the category table has no entry
    with that id. *)
Theorem parse_coco_split_category_name split (dataset : gmap string Coco)
    coco rows :
  dataset !! split = Some coco ->
  parse_coco_split split dataset = Ok rows ->
  Forall2 (fun ann row =>
             o_category_id row = category_id ann
             /\ (Forall (fun c => cat_id c ≠ category_id ann) (categories coco) ->
                 o_category_name row
                 = String.append "class_" (pretty (category_id ann)))
             /\ (forall l1 c l2,
                   categories coco = l1 ++ c :: l2 ->
                   cat_id c = category_id ann ->
                   Forall (fun c' => cat_id c' ≠ category_id ann) l2 ->
                   o_category_name row = name c))
          (annotations coco) rows.
Proof.
  intros Hds Hp. eapply Forall2_impl; [by eapply parse_coco_split_rows|].
  intros ann row Hrow. simpl in Hrow. unfold parse_annotation in Hrow.
  destruct (images_by_id coco !! image_id ann); [|discriminate].
  injection Hrow as <-. cbn [o_category_id o_category_name].
  split; [done|]. split.
  - intros Hno. apply cats_by_id_None in Hno. by rewrite Hno.
  - intros l1 c l2 Hcats Hid Hl2. unfold cats_by_id. rewrite Hcats, <- Hid.
    rewrite (foldl_insert_lookup_last cat_id name); [done|].
    by rewrite Hid.
Qed.

(** Every row of the object-level table carries its split and the box of
    its annotation with the far corner at (x_min + w, y_min + h), and the
    file name and the size of the last image entry that has the image id of
    the annotation. *)
Theorem parse_coco_split_row_of_annotation split (dataset : gmap string Coco)
    coco rows :
  dataset !! split = Some coco ->
  parse_coco_split split dataset = Ok rows ->
  Forall2 (fun ann row =>
             o_split row = split /\ o_image_id row = image_id ann
             /\ o_x_min_px row = bx (bbox ann) /\ o_y_min_px row = by_ (bbox ann)
             /\ o_x_max_px row = (o_x_min_px row + o_width_px row)%Q
             /\ o_y_max_px row = (o_y_min_px row + o_height_px row)%Q
             /\ (forall l1 img l2,
                   images coco = l1 ++ img :: l2 ->
                   id img = image_id ann ->
                   Forall (fun img' => id img' ≠ image_id ann) l2 ->
                   o_file_name row = file_name img
                   /\ o_img_width_px row = width img
                   /\ o_img_height_px row = height img))
          (annotations coco) rows.
Proof.
  intros Hds Hp. eapply Forall2_impl; [by eapply parse_coco_split_rows|].
  intros ann row Hrow. simpl in Hrow. unfold parse_annotation in Hrow.
  destruct (images_by_id coco !! image_id ann) as [img_info|] eqn:Himg;
    [|discriminate].
  injection Hrow as <-. simpl. do 6 (split; [done|]).
  intros l1 img l2 Himgs Hid Hl2. revert Himg. unfold images_by_id.
  rewrite Himgs, <- Hid.
  rewrite (foldl_insert_lookup_last id (fun i => i)) by (by rewrite Hid).
  by intros [= <-].
Qed.

(** ** [extract_object_level_gt] *)

(** The only exception of [parse_coco_split] on a typed source is the
    [KeyError] of an image id. *)
Lemma parse_annotations_cases split imgs cats anns rows :
  (exists out, parse_annotations split imgs cats anns rows = Ok out)
  \/ (exists k, parse_annotations split imgs cats anns rows
                = Raise (KeyError_int k)).
Proof.
  revert rows. induction anns as [|ann anns IH]; intros rows; simpl; [by eauto|].
  destruct (imgs !! image_id ann) as [img|] eqn:Himg.
  - destruct (parse_annotation_Ok split imgs cats ann) as [row ->]; [by eauto|].
    apply IH.
  - rewrite parse_annotation_Raise by done. by eauto.
Qed.

Lemma parse_coco_split_cases split (dataset : gmap string Coco) :
  (exists rows, parse_coco_split split dataset = Ok rows)
  \/ (exists k, parse_coco_split split dataset = Raise (KeyError_int k)).
Proof.
  unfold parse_coco_split. destruct (dataset !! split); [|by eauto].
  apply parse_annotations_cases.
Qed.

Lemma parse_coco_split_total split (dataset : gmap string Coco) :
  (forall coco, dataset !! split = Some coco ->
                Forall (resolvable coco) (annotations coco)) ->
  exists rows, parse_coco_split split dataset = Ok rows
    /\ length rows = n_annotations dataset split.
Proof.
  intros Hall. unfold parse_coco_split, n_annotations.
  destruct (dataset !! split) as [coco|]; [|by exists []].
  destruct (parse_annotations_Ok split (images_by_id coco) (cats_by_id coco)
              (annotations coco) []) as (rows & -> & Hlen); [|by exists rows].
  eapply Forall_impl; [by apply Hall|]. intros ann Hex.
  destruct (images_by_id coco !! image_id ann) eqn:E; [by eauto|].
  apply images_by_id_None in E. apply Exists_exists in Hex as (img & Hin & Hid).
  rewrite Forall_forall in E. by destruct (E img Hin).
Qed.

Lemma parse_coco_split_dangling split (dataset : gmap string Coco) coco :
  dataset !! split = Some coco ->
  Exists (fun ann => Forall (fun img => id img ≠ image_id ann) (images coco))
         (annotations coco) ->
  exists k, parse_coco_split split dataset = Raise (KeyError_int k).
Proof.
  intros Hds Hex. unfold parse_coco_split. rewrite Hds.
  destruct (parse_annotations_Raise split (images_by_id coco) (cats_by_id coco)
              (annotations coco) []) as (ann & _ & _ & ->); [|by eauto].
  eapply Exists_impl; [exact Hex|]. intros ann Hall. simpl in Hall.
  by apply images_by_id_None.
Qed.

(** When every annotation of the three splits refers to an image of its
    split, [extract_object_level_gt] writes the rows of train, valid and
    test, in this order, to the annotations file and nowhere else; a split
    without annotation file adds nothing, a split of another name is not
    read, and the file has as many rows as the three splits have
    annotations. *)
Theorem extract_object_level_gt_all_splits (self : Pipeline)
    (dataset : gmap string Coco) :
  dataset_dir self = Some dataset ->
  (forall split coco, split ∈ ["train"; "valid"; "test"] ->
     dataset !! split = Some coco ->
     Forall (resolvable coco) (annotations coco)) ->
  exists rows_train rows_valid rows_test,
    parse_coco_split "train" dataset = Ok rows_train
    /\ parse_coco_split "valid" dataset = Ok rows_valid
    /\ parse_coco_split "test" dataset = Ok rows_test
    /\ extract_object_level_gt self
       = (Ok "annotations_with_geo.csv",
          write_annotations self (rows_train ++ rows_valid ++ rows_test))
    /\ length (rows_train ++ rows_valid ++ rows_test)
       = (n_annotations dataset "train" + n_annotations dataset "valid"
          + n_annotations dataset "test")%nat.
Proof.
  intros Hds Hall.
  destruct (parse_coco_split_total "train" dataset) as (r1 & H1 & L1);
    [intros coco; apply Hall; set_solver|].
  destruct (parse_coco_split_total "valid" dataset) as (r2 & H2 & L2);
    [intros coco; apply Hall; set_solver|].
  destruct (parse_coco_split_total "test" dataset) as (r3 & H3 & L3);
    [intros coco; apply Hall; set_solver|].
  exists r1, r2, r3. repeat split; try done.
  - unfold extract_object_level_gt. rewrite Hds. cbn [concat_splits].
    rewrite H1. cbn [mbind result_bind]. rewrite H2. cbn [mbind result_bind].
    rewrite H3. cbn [mbind result_bind app]. by rewrite <- app_assoc.
  - rewrite !length_app. lia.
Qed.

(** One annotation with an image id that is no image, in any of the three
    splits, makes [extract_object_level_gt] raise a [KeyError]; the rows of
    the other splits are lost and no file is written. *)
Theorem extract_object_level_gt_dangling_aborts (self : Pipeline)
    (dataset : gmap string Coco) (split : string) (coco : Coco) :
  dataset_dir self = Some dataset ->
  split ∈ ["train"; "valid"; "test"] ->
  dataset !! split = Some coco ->
  Exists (fun ann => Forall (fun img => id img ≠ image_id ann) (images coco))
         (annotations coco) ->
  exists k, extract_object_level_gt self = (Raise (KeyError_int k), self).
Proof.
  intros Hds Hin Hcoco Hex.
  destruct (parse_coco_split_dangling split dataset coco Hcoco Hex) as [k Hk].
  unfold extract_object_level_gt. rewrite Hds. cbn [concat_splits].
  destruct (parse_coco_split_cases "train" dataset) as [[r1 H1]|[k1 H1]];
    rewrite H1; cbn [mbind result_bind]; [|by eauto].
  destruct (parse_coco_split_cases "valid" dataset) as [[r2 H2]|[k2 H2]];
    rewrite H2; cbn [mbind result_bind]; [|by eauto].
  destruct (parse_coco_split_cases "test" dataset) as [[r3 H3]|[k3 H3]];
    rewrite H3; cbn [mbind result_bind]; [|by eauto].
  exfalso. apply elem_of_cons in Hin as [->|Hin]; [congruence|].
  apply elem_of_cons in Hin as [->|Hin]; [congruence|].
  apply list_elem_of_singleton in Hin as ->. congruence.
Qed.

(** ** More on [build_gt_for_split] *)

(** The group of a key after the loop over the rows: the rows with that
    key, added in order to what the map had. *)
Lemma foldl_agg_step_default (rows : list AnnRow) (m : gmap Z AggRow) (k : Z) :
  default agg_zero (foldl agg_step m rows !! k)
  = foldl agg_add (default agg_zero (m !! k))
      (filter (fun r => r_image_id r = k) rows).
Proof.
  revert m. induction rows as [|r rows IH]; intros m; [done|].
  cbn [foldl]. rewrite IH. unfold agg_step.
  destruct (decide (r_image_id r = k)) as [<-|Hne].
  - by rewrite lookup_insert_eq, filter_cons_True.
  - by rewrite lookup_insert_ne, filter_cons_False.
Qed.

Lemma foldl_agg_add_fields (rs : list AnnRow) (a : AggRow) :
  a_num_boxes (foldl agg_add a rs) = a_num_boxes a + Z.of_nat (length rs)
  /\ a_area_px (foldl agg_add a rs)
     = foldl Qplus (a_area_px a) ((fun r => get_default (r_area_px r) 0%Q) <$> rs)
  /\ a_area_m2 (foldl agg_add a rs)
     = foldl Qplus (a_area_m2 a) ((fun r => get_default (r_area_m2 r) 0%Q) <$> rs).
Proof.
  revert a. induction rs as [|r rs IH]; intros a.
  - cbn. repeat split. lia.
  - cbn [foldl fmap list_fmap length]. destruct (IH (agg_add a r)) as (-> & -> & ->).
    unfold agg_add at 1. cbn [a_num_boxes a_area_px a_area_m2].
    repeat split. lia.
Qed.

Lemma filter_key_ann_row (anns : list Annotation) (k : Z) :
  filter (fun r => r_image_id r = k) (ann_row <$> anns)
  = ann_row <$> filter (fun ann => image_id ann = k) anns.
Proof.
  induction anns as [|ann anns IH]; [done|]. rewrite fmap_cons.
  destruct (decide (image_id ann = k)) as [Heq|Hne].
  - rewrite !filter_cons_True by done. by rewrite fmap_cons, IH.
  - by rewrite !filter_cons_False.
Qed.

(** With at least one image the call returns the left merge, also when the
    source has no annotation. *)
Lemma build_gt_for_split_rows split (dataset : gmap string Coco) coco :
  dataset !! split = Some coco ->
  images coco ≠ [] ->
  build_gt_for_split split dataset
  = Ok (merge_left_fill split (groupby_agg (ann_row <$> annotations coco))
          <$> images coco).
Proof.
  intros Hds Himgs. unfold build_gt_for_split. rewrite Hds.
  destruct (annotations coco) as [|ann anns].
  - apply (f_equal Ok), list_fmap_ext. intros _ img _.
    symmetry. apply merge_left_fill_None. apply lookup_empty.
  - by destruct (images coco).
Qed.

(** The row of an image in the image-level table: its count is the number
    of annotations with the id of the image, its two areas are the sums, in
    the order of the annotations, of their areas (0.0 for an absent or null
    one), and its flag says whether there is such an annotation. *)
Theorem build_gt_for_split_row_of_image (split : string)
    (dataset : gmap string Coco) (coco : Coco) (i : nat) (img : Image) :
  dataset !! split = Some coco ->
  images coco !! i = Some img ->
  let mine := filter (fun ann => image_id ann = id img) (annotations coco) in
  exists rows row,
    build_gt_for_split split dataset = Ok rows
    /\ rows !! i = Some row
    /\ g_split row = split /\ g_file_name row = file_name img
    /\ g_image_id row = id img
    /\ num_boxes_gt row = Z.of_nat (length mine)
    /\ area_px_gt row = series_sum (area_px_or_zero <$> mine)
    /\ area_m2_gt row = series_sum (area_m2_or_zero <$> mine)
    /\ has_solar_gt row = bool_decide (mine ≠ []).
Proof.
  intros Hds Hi mine.
  assert (images coco ≠ []) as Hne by (intros E; by rewrite E in Hi).
  eexists _, _. split; [by apply build_gt_for_split_rows|].
  split; [by rewrite list_lookup_fmap, Hi|].
  unfold merge_left_fill. cbn [gt_row g_split g_file_name g_image_id
    num_boxes_gt area_px_gt area_m2_gt has_solar_gt].
  unfold groupby_agg. rewrite foldl_agg_step_default, lookup_empty.
  cbn [default]. rewrite filter_key_ann_row. fold mine.
  destruct (foldl_agg_add_fields (ann_row <$> mine) agg_zero) as (-> & -> & ->).
  rewrite length_fmap, <- !list_fmap_compose. cbn [agg_zero a_num_boxes
    a_area_px a_area_m2]. repeat split; try done.
  apply bool_decide_ext. destruct mine; cbn [length]; split; try done; lia.
Qed.

Lemma filter_key_drop_dangling (ids : list Z) (anns : list Annotation) (k : Z) :
  k ∈ ids ->
  filter (fun ann => image_id ann = k)
         (filter (fun ann => image_id ann ∈ ids) anns)
  = filter (fun ann => image_id ann = k) anns.
Proof.
  intros Hk. induction anns as [|ann anns IH]; [done|].
  destruct (decide (image_id ann = k)) as [Heq|Hne].
  - rewrite (filter_cons_True (fun ann => image_id ann ∈ ids)) by by rewrite Heq.
    rewrite !(filter_cons_True (fun ann => image_id ann = k)) by done.
    by rewrite IH.
  - rewrite (filter_cons_False (fun ann => image_id ann = k) ann anns) by done.
    destruct (decide (image_id ann ∈ ids)).
    + rewrite (filter_cons_True (fun ann => image_id ann ∈ ids)) by done.
      by rewrite filter_cons_False.
    + by rewrite (filter_cons_False (fun ann => image_id ann ∈ ids)).
Qed.

(** [build_gt_for_split] does not see the annotations whose image id is no
    image: with at least one image, the table is the one of the source
    without these annotations.  (On the same source [parse_coco_split]
    raises.) *)
Theorem build_gt_for_split_ignores_dangling (split : string)
    (dataset : gmap string Coco) (coco : Coco) :
  dataset !! split = Some coco ->
  images coco ≠ [] ->
  build_gt_for_split split (<[split := drop_dangling coco]> dataset)
  = build_gt_for_split split dataset.
Proof.
  intros Hds Hne.
  rewrite (build_gt_for_split_rows split dataset coco Hds Hne).
  rewrite (build_gt_for_split_rows split _ (drop_dangling coco));
    [|apply lookup_insert_eq|done].
  cbn [drop_dangling images annotations].
  apply (f_equal Ok), list_fmap_ext. intros j img Himg. unfold merge_left_fill.
  assert (default agg_zero
            (groupby_agg (ann_row <$> filter (fun ann => image_id ann ∈ id <$> images coco)
                                        (annotations coco)) !! id img)
          = default agg_zero (groupby_agg (ann_row <$> annotations coco) !! id img))
    as ->; [|done].
  unfold groupby_agg. rewrite !foldl_agg_step_default, !filter_key_ann_row.
  rewrite filter_key_drop_dangling; [done|].
  apply list_elem_of_fmap_2. by eapply list_elem_of_lookup_2.
Qed.

(** ** [extract_image_level_gt] *)

Lemma build_gt_for_split_total split (dataset : gmap string Coco) :
  (forall coco, dataset !! split = Some coco ->
                images coco ≠ [] \/ annotations coco = []) ->
  exists rows, build_gt_for_split split dataset = Ok rows
    /\ length rows = n_images dataset split
    /\ Forall (fun g => g_split g = split) rows.
Proof.
  intros Hok. unfold build_gt_for_split, n_images.
  destruct (dataset !! split) as [coco|]; [|by exists []].
  destruct (annotations coco) as [|ann anns] eqn:Hanns.
  - eexists. split; [done|]. rewrite length_fmap. split; [done|].
    apply Forall_fmap, Forall_forall. by intros img _.
  - destruct (Hok coco eq_refl) as [Hne|]; [|congruence].
    destruct (images coco) as [|img0 imgs]; [done|].
    eexists. split; [done|]. rewrite length_fmap. split; [done|].
    apply Forall_fmap, Forall_forall. by intros img _.
Qed.

(** When no split has annotations without images and there is at least one
    image, [extract_image_level_gt] writes the image-level rows of train,
    valid and test, in this order: one row per image of the three splits,
    each with the name of its split in the split column. *)
Theorem extract_image_level_gt_all_splits (self : Pipeline)
    (dataset : gmap string Coco) :
  dataset_dir self = Some dataset ->
  (forall split coco, split ∈ ["train"; "valid"; "test"] ->
     dataset !! split = Some coco ->
     images coco ≠ [] \/ annotations coco = []) ->
  (n_images dataset "train" + n_images dataset "valid"
   + n_images dataset "test" ≠ 0)%nat ->
  exists rows_train rows_valid rows_test,
    build_gt_for_split "train" dataset = Ok rows_train
    /\ build_gt_for_split "valid" dataset = Ok rows_valid
    /\ build_gt_for_split "test" dataset = Ok rows_test
    /\ extract_image_level_gt self
       = (Ok "gt_image_level_all_images.csv",
          Some (Table (rows_train ++ rows_valid ++ rows_test)))
    /\ Forall (fun g => g_split g = "train") rows_train
    /\ Forall (fun g => g_split g = "valid") rows_valid
    /\ Forall (fun g => g_split g = "test") rows_test
    /\ length (rows_train ++ rows_valid ++ rows_test)
       = (n_images dataset "train" + n_images dataset "valid"
          + n_images dataset "test")%nat.
Proof.
  intros Hds Hok Hn.
  destruct (build_gt_for_split_total "train" dataset) as (r1 & H1 & L1 & S1);
    [intros coco; apply Hok; set_solver|].
  destruct (build_gt_for_split_total "valid" dataset) as (r2 & H2 & L2 & S2);
    [intros coco; apply Hok; set_solver|].
  destruct (build_gt_for_split_total "test" dataset) as (r3 & H3 & L3 & S3);
    [intros coco; apply Hok; set_solver|].
  assert (length (r1 ++ r2 ++ r3)
          = (n_images dataset "train" + n_images dataset "valid"
             + n_images dataset "test")%nat) as Hlen
    by (rewrite !length_app; lia).
  exists r1, r2, r3. repeat split; try done.
  unfold extract_image_level_gt. rewrite Hds. cbn [concat_gt_splits].
  rewrite H1. cbn [mbind result_bind]. rewrite H2. cbn [mbind result_bind].
  rewrite H3. cbn [mbind result_bind app]. rewrite <- app_assoc.
  destruct (r1 ++ r2 ++ r3); [simpl in Hlen; lia | done].
Qed.

(** When none of the three splits has an image or an annotation (for
    instance, none has an annotation file), [extract_image_level_gt] writes
    a file without any column and then raises the [KeyError] of the column
    ["has_solar_gt"]. *)
Theorem extract_image_level_gt_no_image (self : Pipeline)
    (dataset : gmap string Coco) :
  dataset_dir self = Some dataset ->
  (forall split coco, split ∈ ["train"; "valid"; "test"] ->
     dataset !! split = Some coco ->
     images coco = [] /\ annotations coco = []) ->
  extract_image_level_gt self
  = (Raise (KeyError_str "has_solar_gt"), Some NoColumns).
Proof.
  intros Hds Hno.
  assert (forall split, split ∈ ["train"; "valid"; "test"] ->
            build_gt_for_split split dataset = Ok []) as Hb.
  { intros split Hin. unfold build_gt_for_split.
    destruct (dataset !! split) as [coco|] eqn:Hc; [|done].
    destruct (Hno split coco Hin Hc) as [-> ->]. done. }
  unfold extract_image_level_gt. rewrite Hds. cbn [concat_gt_splits].
  rewrite !Hb by repeat constructor. done.
Qed.

(** ** [run_inference_on_split] *)

Lemma length_omap_le {A B} (f : A -> option B) (l : list A) :
  (length (omap f l) <= length l)%nat.
Proof.
  induction l as [|x l IH]; [done|]. cbn [omap list_omap].
  destruct (f x); simpl; lia.
Qed.

Section InferenceFacts.

Variable infer : string -> string -> result InferResult.

(** The accumulators of the loop only grow at their end. *)
Lemma infer_loop_acc split model_id paths rows raw :
  infer_loop infer split model_id paths rows raw
  = (rows ++ (infer_loop infer split model_id paths [] []).1,
     raw ++ (infer_loop infer split model_id paths [] []).2).
Proof.
  revert rows raw. induction paths as [|p paths IH]; intros rows raw.
  - simpl. by rewrite !app_nil_r.
  - simpl. destruct (infer p model_id) as [res|e]; [|apply IH].
    rewrite (IH (rows ++ _) (raw ++ _)), (IH [_] [_]). simpl.
    by rewrite <- !app_assoc.
Qed.

Lemma infer_loop_answers split model_id paths :
  infer_loop infer split model_id paths [] []
  = ((fun a => pred_row split a.1 a.2) <$> answers infer model_id paths,
     (fun a => raw_record split a.1 a.2) <$> answers infer model_id paths).
Proof.
  induction paths as [|p paths IH]; [done|].
  simpl. unfold answers in *. cbn [omap list_omap].
  destruct (infer p model_id) as [res|e]; [|exact IH].
  rewrite infer_loop_acc, IH. done.
Qed.

(** The rows and the raw records of [run_inference_on_split] are those of
    the images for which the call of the service returned, in the order of
    the paths, one row and one raw record for each; they have the split,
    the path and its base name in common. *)
Theorem run_inference_on_split_answered split model_id paths :
  let out := run_inference_on_split infer split paths model_id in
  out.1 = (fun a => pred_row split a.1 a.2) <$> answers infer model_id paths
  /\ out.2 = (fun a => raw_record split a.1 a.2) <$> answers infer model_id paths
  /\ length out.1 = length out.2
  /\ (length out.1 <= length paths)%nat
  /\ Forall2 (fun row rec =>
                p_split row = split /\ raw_split rec = split
                /\ image_path row = raw_image_path rec
                /\ p_file_name row = raw_file_name rec
                /\ p_file_name row = basename (image_path row))
             out.1 out.2.
Proof.
  cbv zeta. unfold run_inference_on_split. rewrite infer_loop_answers.
  cbn [fst snd]. split; [done|]. split; [done|].
  rewrite !length_fmap. split; [done|]. split.
  - unfold answers. apply length_omap_le.
  - apply Forall2_fmap, Forall_Forall2_diag, Forall_forall. by intros a _.
Qed.

(** A call of the service that raises costs its image only: the result is
    the one of the run without that path. *)
Theorem run_inference_on_split_skips_failure split model_id paths1 p paths2 e :
  infer p model_id = Raise e ->
  run_inference_on_split infer split (paths1 ++ p :: paths2) model_id
  = run_inference_on_split infer split (paths1 ++ paths2) model_id.
Proof.
  intros He. unfold run_inference_on_split. rewrite !infer_loop_answers.
  unfold answers. rewrite !omap_app. cbn [omap list_omap]. by rewrite He.
Qed.

End InferenceFacts.

(** ** The row of one image *)

(** The running maximum of [max]: above its start and every element, and
    one of them. *)
Lemma foldl_max_spec (xs : list Q) (x : Q) :
  let m := foldl (fun m c => if Qle_bool c m then m else c) x xs in
  (x <= m)%Q /\ Forall (fun c => (c <= m)%Q) xs /\ m ∈ x :: xs.
Proof.
  revert x. induction xs as [|c xs IH]; intros x; cbn [foldl].
  - split; [apply Qle_refl|]. split; [constructor | apply list_elem_of_here].
  - destruct (IH (if Qle_bool c x then x else c)) as (Hx' & Hall & Hin).
    destruct (Qle_bool c x) eqn:Hc.
    + apply Qle_bool_iff in Hc. split; [done|]. split.
      * constructor; [by eapply Qle_trans | done].
      * apply elem_of_cons in Hin as [->|Hin]; [apply list_elem_of_here|].
        by do 2 apply list_elem_of_further.
    + assert (x <= c)%Q as Hxc.
      { apply Qlt_le_weak, Qnot_le_lt. intros Hle.
        apply Qle_bool_iff in Hle. congruence. }
      split; [by eapply Qle_trans|]. split.
      * by constructor.
      * by apply list_elem_of_further.
Qed.

(** The count, the flag and the greatest confidence of the row of an image:
    the count is the number of predictions and the flag says whether there
    is one; without prediction the confidence and the area are 0.0;
    otherwise the confidence is the one of some prediction and no
    prediction has a greater one (an absent confidence counts as 0.0), so
    it is in [0, 1] when all confidences are. *)
Theorem pred_row_summary (split img_path : string) (res : InferResult) :
  let preds := get_default (predictions res) [] in
  let row := pred_row split img_path res in
  num_preds row = Z.of_nat (length preds)
  /\ has_solar_pred row = bool_decide (preds ≠ [])
  /\ (preds = [] -> max_conf_pred row = 0%Q /\ area_px_pred row = 0%Q)
  /\ Forall (fun p => (confidence_or_zero p <= max_conf_pred row)%Q) preds
  /\ (preds ≠ [] ->
      exists p, p ∈ preds /\ max_conf_pred row = confidence_or_zero p)
  /\ (Forall (fun p => (0 <= confidence_or_zero p <= 1)%Q) preds ->
      (0 <= max_conf_pred row <= 1)%Q).
Proof.
  intros preds row. subst row. unfold pred_row.
  cbn [num_preds has_solar_pred max_conf_pred area_px_pred]. fold preds.
  change (fun p => get_default (confidence p) 0%Q) with confidence_or_zero.
  split; [done|]. split.
  { apply bool_decide_ext. destruct preds; cbn [length]; split; try done; lia. }
  split; [by intros ->|].
  destruct preds as [|p0 preds']; [repeat split; try done; by constructor|].
  rewrite fmap_cons. cbn [max_default].
  pose proof (foldl_max_spec (confidence_or_zero <$> preds')
                (confidence_or_zero p0)) as (H0 & Hall & Hin).
  cbv zeta in H0, Hall, Hin. rewrite <- fmap_cons in Hin.
  apply list_elem_of_fmap in Hin as (p & Hp & Hin).
  rewrite Forall_forall in Hall. split; [|split].
  - constructor; [done|]. apply Forall_forall. intros q Hq.
    by apply Hall, list_elem_of_fmap_2.
  - intros _. by exists p.
  - intros Hb. rewrite Hp. rewrite Forall_forall in Hb. by apply Hb.
Qed.

Lemma sum_pred_area_nonneg (preds : list Prediction) (a : Q) :
  (0 <= a)%Q ->
  Forall (fun p => (0 <= get_default (pred_width p) 0)%Q
                   /\ (0 <= get_default (pred_height p) 0)%Q) preds ->
  (0 <= foldl (fun area_px_pred p =>
                 area_px_pred
                 + get_default (pred_width p) 0 * get_default (pred_height p) 0)
              a preds)%Q.
Proof.
  intros Ha Hall. revert a Ha.
  induction Hall as [|p preds [Hw Hh] _ IH]; intros a Ha; [done|].
  cbn [foldl]. apply IH.
  pose proof (Qmult_le_0_compat _ _ Hw Hh). lra.
Qed.

(** The predicted area of a row is not negative when no predicted box has a
    negative width or height (an absent one counts as 0.0); and a row with
    a positive predicted area has its flag set. *)
Theorem pred_row_area (split img_path : string) (res : InferResult) :
  let preds := get_default (predictions res) [] in
  let row := pred_row split img_path res in
  Forall (fun p => (0 <= get_default (pred_width p) 0)%Q
                   /\ (0 <= get_default (pred_height p) 0)%Q) preds ->
  (0 <= area_px_pred row)%Q
  /\ (Qpositive (area_px_pred row) = true -> has_solar_pred row = true).
Proof.
  intros preds row Hall. subst row. unfold pred_row.
  cbn [area_px_pred has_solar_pred]. fold preds. split.
  - by apply sum_pred_area_nonneg.
  - destruct preds; [by vm_compute | intros _].
    apply bool_decide_eq_true. cbn [length]. lia.
Qed.

(** ** [os.path.basename] *)

Lemma append_snoc (a : string) (c : ascii) (s : string) :
  String.append (String.append a (String c EmptyString)) s
  = String.append a (String c s).
Proof.
  induction a as [|d a IH]; [done|].
  change (String d (String.append (String.append a (String c EmptyString)) s)
          = String d (String.append a (String c s))).
  by rewrite IH.
Qed.

Lemma basename_from_slash (acc s1 s2 : string) :
  basename_from acc (String.append s1 (String "/" s2))
  = basename_from EmptyString s2.
Proof.
  revert acc. induction s1 as [|c s1 IH]; intros acc; simpl; [done|].
  destruct (Ascii.eqb c "/"); apply IH.
Qed.

Lemma basename_from_no_slash (acc s : string) :
  Forall (fun c => c ≠ "/"%char) (String.list_ascii_of_string s) ->
  basename_from acc s = String.append acc s.
Proof.
  revert acc. induction s as [|c s IH]; intros acc Hs; simpl.
  - induction acc as [|d acc IHa]; [done|].
    change (String d acc = String d (String.append acc EmptyString)).
    by rewrite <- IHa.
  - simpl in Hs. apply Forall_cons in Hs as [Hc Hs].
    destruct (Ascii.eqb_spec c "/"); [done|].
    rewrite IH by done. apply append_snoc.
Qed.

(** The file name of a prediction row is the last component of the path of
    its image: for the path [dir/name], with a name without slash, it is
    [name], whatever the directory is. *)
Theorem pred_row_file_name (split dir name : string) (res : InferResult) :
  Forall (fun c => c ≠ "/"%char) (String.list_ascii_of_string name) ->
  basename (String.append dir (String "/" name)) = name
  /\ pred_key (pred_row split (String.append dir (String "/" name)) res)
     = (split, name).
Proof.
  intros Hname.
  assert (basename (String.append dir (String "/" name)) = name) as Hb.
  { unfold basename. rewrite basename_from_slash.
    by rewrite basename_from_no_slash. }
  split; [done|]. unfold pred_key, pred_row. cbn [p_split p_file_name].
  by rewrite Hb.
Qed.

(** ** More on the evaluator *)

Lemma List_filter_Permutation {A} (cond : A -> bool) (l l' : list A) :
  l ≡ₚ l' -> List.filter cond l ≡ₚ List.filter cond l'.
Proof.
  induction 1 as [|x l l' _ IH|x y l|l l' l'' _ IH1 _ IH2]; simpl.
  - done.
  - destruct (cond x); [by constructor | done].
  - destruct (cond x), (cond y); try done. apply perm_swap.
  - by etrans.
Qed.

Lemma count_rows_Permutation cond (df df' : list MergedRow) :
  df ≡ₚ df' -> count_rows cond df = count_rows cond df'.
Proof.
  intros Hp. unfold count_rows.
  by rewrite (Permutation_length (List_filter_Permutation cond _ _ Hp)).
Qed.

(** The counts, the four classification metrics and the two numbers of
    images do not depend on the order of the rows of the merged table. *)
Theorem metrics_classification_permutation (np_sqrt : Q -> Q)
    (df df' : list MergedRow) :
  df ≡ₚ df' ->
  let m := metrics np_sqrt df in
  let m' := metrics np_sqrt df' in
  tp m = tp m' /\ fp m = fp m' /\ fn m = fn m' /\ tn m = tn m'
  /\ accuracy m = accuracy m' /\ precision m = precision m'
  /\ recall m = recall m' /\ f1_score m = f1_score m'
  /\ num_images_area_eval m = num_images_area_eval m'
  /\ total_images m = total_images m'.
Proof.
  intros Hp. cbn [metrics tp fp fn tn accuracy precision recall f1_score
    num_images_area_eval total_images].
  unfold calc_accuracy, accuracy_den, calc_f1, f1_den, calc_precision,
    precision_den, calc_recall, recall_den, calc_tp, calc_fp, calc_fn, calc_tn.
  rewrite !(count_rows_Permutation _ df df' Hp), (Permutation_length Hp).
  repeat split.
Qed.

Lemma zip_with_fmap_same {A B C D} (g : B -> C -> D) (a : A -> B) (b : A -> C)
    (l : list A) :
  zip_with g (a <$> l) (b <$> l) = (fun x => g (a x) (b x)) <$> l.
Proof.
  induction l as [|x l IH]; [done|].
  change (g (a x) (b x) :: zip_with g (a <$> l) (b <$> l)
          = g (a x) (b x) :: ((fun x => g (a x) (b x)) <$> l)).
  by rewrite IH.
Qed.

Lemma abs_err_rows (df : list MergedRow) :
  abs_err df
  = (fun r => Qabs (m_area_px_pred r - m_area_px_gt r)) <$> List.filter mask df.
Proof.
  unfold abs_err, area_pred, area_gt.
  apply (zip_with_fmap_same (fun p g => Qabs (p - g))).
Qed.

Lemma sq_err_rows (df : list MergedRow) :
  sq_err df
  = (fun r => (m_area_px_pred r - m_area_px_gt r) ^ 2)%Q <$> List.filter mask df.
Proof.
  unfold sq_err, area_pred, area_gt.
  apply (zip_with_fmap_same (fun p g => (p - g) ^ 2)%Q).
Qed.

Lemma omap_Some {A} (l : list A) : omap (fun c : option A => c) (Some <$> l) = l.
Proof.
  induction l as [|x l IH]; [done|].
  change (x :: omap (fun c : option A => c) (Some <$> l) = x :: l).
  by rewrite IH.
Qed.

Lemma series_mean_Some (l : list Q) :
  series_mean (Some <$> l)
  = match l with
    | [] => None
    | _ :: _ => Some (series_sum l / inject_Z (Z.of_nat (length l)))%Q
    end.
Proof. unfold series_mean, cell. by rewrite omap_Some. Qed.

Lemma foldl_Qplus_acc (l : list Q) (a : Q) :
  (foldl Qplus a l == a + series_sum l)%Q.
Proof.
  unfold series_sum. revert a. induction l as [|x l IH]; intros a; simpl.
  - lra.
  - rewrite (IH (a + x)%Q), (IH (0 + x)%Q). lra.
Qed.

Lemma series_sum_cons (x : Q) (l : list Q) :
  (series_sum (x :: l) == x + series_sum l)%Q.
Proof. unfold series_sum at 1. simpl. rewrite foldl_Qplus_acc. lra. Qed.

Lemma series_sum_Permutation (l l' : list Q) :
  l ≡ₚ l' -> (series_sum l == series_sum l')%Q.
Proof.
  induction 1 as [|x l l' _ IH|x y l|l l' l'' _ IH1 _ IH2].
  - reflexivity.
  - rewrite !series_sum_cons, IH. reflexivity.
  - rewrite !series_sum_cons. lra.
  - by rewrite IH1.
Qed.

Lemma series_mean_Permutation (l l' : list Q) :
  l ≡ₚ l' -> cell_eq (series_mean (Some <$> l)) (series_mean (Some <$> l')).
Proof.
  intros Hp. rewrite !series_mean_Some.
  destruct l as [|x l], l' as [|x' l'].
  - done.
  - by apply Permutation_nil_cons in Hp.
  - symmetry in Hp. by apply Permutation_nil_cons in Hp.
  - simpl. rewrite (series_sum_Permutation _ _ Hp).
    apply Permutation_length in Hp. simpl in Hp. injection Hp as ->. reflexivity.
Qed.

(** In exact arithmetic the MAE and the MAPE do not depend on the order of
    the rows of the merged table either. *)
Theorem metrics_area_permutation (np_sqrt : Q -> Q) (df df' : list MergedRow) :
  df ≡ₚ df' ->
  cell_eq (mae_px2 (metrics np_sqrt df)) (mae_px2 (metrics np_sqrt df'))
  /\ cell_eq (mape_percent (metrics np_sqrt df))
             (mape_percent (metrics np_sqrt df')).
Proof.
  intros Hp. cbn [metrics mae_px2 mape_percent].
  pose proof (List_filter_Permutation mask _ _ Hp) as Hm. split.
  - unfold mae. rewrite !abs_err_rows. apply series_mean_Permutation.
    by apply fmap_Permutation.
  - rewrite !mape_mape_spec. unfold mape_spec.
    rewrite <- !series_mean_Some. apply series_mean_Permutation.
    by apply fmap_Permutation, List_filter_Permutation.
Qed.

Lemma List_filter_nil_iff {A} (cond : A -> bool) (l : list A) :
  List.filter cond l = [] <-> Forall (fun x => cond x = false) l.
Proof.
  induction l as [|x l IH]; simpl.
  - split; [constructor | done].
  - rewrite Forall_cons. destruct (cond x); [|tauto].
    split; [done | by intros [? _]].
Qed.

Lemma List_filter_length_le {A} (cond : A -> bool) (l : list A) :
  (length (List.filter cond l) <= length l)%nat.
Proof. induction l as [|x l IH]; simpl; [done|]. destruct (cond x); simpl; lia. Qed.

Lemma series_sum_nonneg (l : list Q) :
  Forall (fun x => (0 <= x)%Q) l -> (0 <= series_sum l)%Q.
Proof.
  induction 1 as [|x l Hx _ IH]; [done|]. rewrite series_sum_cons. lra.
Qed.

Lemma series_mean_nonneg (l : list Q) (v : Q) :
  Forall (fun x => (0 <= x)%Q) l ->
  series_mean (Some <$> l) = Some v -> (0 <= v)%Q.
Proof.
  intros Hl. rewrite series_mean_Some. destruct l as [|x l]; [done|].
  intros [= <-]. apply Qle_shift_div_l.
  - change 0%Q with (inject_Z 0). rewrite <- Zlt_Qlt. cbn [length]. lia.
  - rewrite Qmult_0_l. by apply series_sum_nonneg.
Qed.

(** When the area metrics are numbers: the MAE and the RMSE are NaN exactly
    when no row passes the area filter, the MAPE exactly when no row that
    passes has a ground-truth area other than 0; a MAE that is a number is
    not negative; and the rows of the area evaluation are some of the rows
    of the merged table. *)
Theorem area_metrics_defined (np_sqrt : Q -> Q) (df : list MergedRow) :
  let m := metrics np_sqrt df in
  (mae_px2 m = None <-> num_images_area_eval m = 0)
  /\ (rmse_px2 m = None <-> num_images_area_eval m = 0)
  /\ (mape_percent m = None
      <-> Forall (fun r => mask r = true -> (m_area_px_gt r == 0)%Q) df)
  /\ (forall v, mae_px2 m = Some v -> (0 <= v)%Q)
  /\ 0 <= num_images_area_eval m <= total_images m.
Proof.
  cbn [metrics mae_px2 rmse_px2 mape_percent num_images_area_eval total_images].
  unfold mae, rmse, count_rows. rewrite abs_err_rows, sq_err_rows, mape_mape_spec.
  unfold mape_spec.
  pose proof (List_filter_length_le mask df) as Hle.
  split; [|split; [|split; [|split]]].
  - rewrite series_mean_Some.
    destruct (List.filter mask df); simpl; split; try done; lia.
  - rewrite series_mean_Some.
    destruct (List.filter mask df); simpl; split; try done; lia.
  - transitivity (List.filter gt_nonzero (List.filter mask df) = []).
    { destruct (List.filter gt_nonzero (List.filter mask df)); by split. }
    split; [|apply filter_gt_nonzero_nil].
    intros Hnil. apply Forall_forall. intros r Hr Hm.
    apply List_filter_nil_iff in Hnil. rewrite Forall_forall in Hnil.
    assert (r ∈ List.filter mask df) as Hin.
    { apply list_elem_of_In, filter_In. split; [by apply list_elem_of_In | done]. }
    specialize (Hnil r Hin). unfold gt_nonzero in Hnil.
    apply negb_false_iff in Hnil. by apply Qeq_bool_iff.
  - intros v Hv. apply (series_mean_nonneg _ v) in Hv; [done|].
    apply Forall_fmap, Forall_forall. intros r' _. apply Qabs_nonneg.
  - lia.
Qed.

(** ** The merge on tables with unique keys *)

Lemma filter_key_NoDup (df_pred : list PredRow) (k : string * string) :
  NoDup (pred_key <$> df_pred) ->
  k ∈ pred_key <$> df_pred ->
  exists p, filter (fun p => pred_key p = k) df_pred = [p] /\ pred_key p = k.
Proof.
  induction df_pred as [|p l IH]; intros Hnd Hk.
  - by apply elem_of_nil in Hk.
  - rewrite fmap_cons in Hnd, Hk. apply NoDup_cons in Hnd as [Hp Hnd].
    destruct (decide (pred_key p = k)) as [Heq|Hne].
    + exists p. rewrite filter_cons_True by done.
      rewrite filter_key_unmatched; [done|]. by rewrite <- Heq.
    + apply elem_of_cons in Hk as [Hk|Hk]; [congruence|].
      destruct (IH Hnd Hk) as (q & Hq & Hkq). exists q.
      by rewrite filter_cons_False.
Qed.

Lemma pd_merge_inner_keys (df_gt : list GtRow) (df_pred : list PredRow) :
  NoDup (pred_key <$> df_pred) ->
  merged_key <$> pd_merge_inner df_gt df_pred
  = gt_key <$> matched_gt df_gt df_pred.
Proof.
  intros Hnd. unfold pd_merge_inner, matched_gt.
  induction df_gt as [|g l IH]; [done|].
  rewrite bind_cons, fmap_app, IH.
  destruct (decide (gt_key g ∈ pred_key <$> df_pred)) as [Hin|Hnin].
  - rewrite filter_cons_True by done.
    destruct (filter_key_NoDup df_pred (gt_key g) Hnd Hin) as (p & -> & _).
    done.
  - rewrite filter_cons_False by done.
    by rewrite (filter_key_unmatched df_pred (gt_key g)).
Qed.

Lemma pd_merge_inner_length (df_gt : list GtRow) (df_pred : list PredRow) :
  NoDup (pred_key <$> df_pred) ->
  length (pd_merge_inner df_gt df_pred) = length (matched_gt df_gt df_pred).
Proof.
  intros Hnd.
  by rewrite <- (length_fmap merged_key), pd_merge_inner_keys, length_fmap.
Qed.

Lemma pd_merge_inner_keys_NoDup (df_gt : list GtRow) (df_pred : list PredRow) :
  NoDup (pred_key <$> df_pred) ->
  NoDup (gt_key <$> df_gt) ->
  NoDup (merged_key <$> pd_merge_inner df_gt df_pred).
Proof.
  intros Hnd Hgt. rewrite pd_merge_inner_keys by done.
  eapply sublist_NoDup; [exact Hgt|]. apply fmap_sublist, sublist_filter.
Qed.

Lemma pd_merge_inner_keys_pred (df_gt : list GtRow) (df_pred : list PredRow) k :
  NoDup (pred_key <$> df_pred) ->
  k ∈ merged_key <$> pd_merge_inner df_gt df_pred ->
  k ∈ pred_key <$> df_pred.
Proof.
  intros Hnd. rewrite pd_merge_inner_keys by done. intros Hk.
  apply list_elem_of_fmap in Hk as (g & -> & Hg).
  by apply list_elem_of_filter in Hg as [Hg _].
Qed.

(** With unique keys on both sides and a ground-truth row for every
    prediction, the merged table has a row per prediction. *)
Lemma pd_merge_inner_length_pred (df_gt : list GtRow) (df_pred : list PredRow) :
  NoDup (pred_key <$> df_pred) ->
  NoDup (gt_key <$> df_gt) ->
  (forall p, p ∈ df_pred -> pred_key p ∈ gt_key <$> df_gt) ->
  length (pd_merge_inner df_gt df_pred) = length df_pred.
Proof.
  intros Hnd Hgt Hall.
  rewrite <- (length_fmap merged_key), <- (length_fmap pred_key df_pred).
  apply Permutation_length, NoDup_Permutation;
    [by apply pd_merge_inner_keys_NoDup | done |].
  intros k. split; [by apply pd_merge_inner_keys_pred|]. intros Hk.
  rewrite pd_merge_inner_keys by done.
  apply list_elem_of_fmap in Hk as (p & -> & Hp).
  specialize (Hall p Hp). apply list_elem_of_fmap in Hall as (g & Hg & Hgin).
  rewrite Hg. apply list_elem_of_fmap_2, list_elem_of_filter.
  split; [|done]. rewrite <- Hg. by apply list_elem_of_fmap_2.
Qed.

(** When no two prediction rows have the same (split, file name), every
    ground-truth row is in at most one merged row: the keys of the merged
    table are those of the ground-truth rows that have a prediction, in
    order.  When the keys of the ground truth are unique as well, so are
    those of the merged table, which then has at most as many rows as there
    are predictions, and exactly as many when every prediction has a
    ground-truth row. *)
Theorem pd_merge_inner_unique_keys (df_gt : list GtRow) (df_pred : list PredRow) :
  NoDup (pred_key <$> df_pred) ->
  let df_merged := pd_merge_inner df_gt df_pred in
  merged_key <$> df_merged = gt_key <$> matched_gt df_gt df_pred
  /\ (length df_merged <= length df_gt)%nat
  /\ (NoDup (gt_key <$> df_gt) ->
      NoDup (merged_key <$> df_merged)
      /\ (length df_merged <= length df_pred)%nat
      /\ ((forall p, p ∈ df_pred -> pred_key p ∈ gt_key <$> df_gt) ->
          length df_merged = length df_pred)).
Proof.
  intros Hnd df_merged. subst df_merged.
  split; [by apply pd_merge_inner_keys|]. split.
  { rewrite pd_merge_inner_length by done. apply sublist_length, sublist_filter. }
  intros Hgt. split; [by apply pd_merge_inner_keys_NoDup|]. split.
  - rewrite <- (length_fmap merged_key), <- (length_fmap pred_key df_pred).
    apply submseteq_length, NoDup_submseteq;
      [by apply pd_merge_inner_keys_NoDup|].
    intros k. by apply pd_merge_inner_keys_pred.
  - by apply pd_merge_inner_length_pred.
Qed.

(** [evaluate_predictions] only writes the merged file: the other files and
    the dataset are as before, and a second call returns the same metrics
    and leaves the directory as the first call left it. *)
Theorem evaluate_predictions_idempotent (np_sqrt : Q -> Q) (self : Pipeline) :
  let out := evaluate_predictions np_sqrt self in
  evaluate_predictions np_sqrt out.2 = out
  /\ dataset_dir out.2 = dataset_dir self
  /\ annotations_with_geo_csv (outputs_dir out.2)
     = annotations_with_geo_csv (outputs_dir self)
  /\ gt_image_level_all_images_csv (outputs_dir out.2)
     = gt_image_level_all_images_csv (outputs_dir self)
  /\ pred_image_level_csv (outputs_dir out.2)
     = pred_image_level_csv (outputs_dir self).
Proof.
  cbv zeta. unfold evaluate_predictions.
  destruct (gt_image_level_all_images_csv (outputs_dir self)) as [df_gt|] eqn:Hg;
    [destruct (pred_image_level_csv (outputs_dir self)) as [df_pred|] eqn:Hp|].
  - cbn [snd write_merged outputs_dir gt_image_level_all_images_csv
      pred_image_level_csv dataset_dir annotations_with_geo_csv].
    by rewrite Hg, Hp.
  - cbn [snd]. by rewrite Hg, Hp.
  - cbn [snd]. by rewrite Hg.
Qed.

(** ** From the annotation file and the service to the metrics *)





(** * The further properties on the sample inputs *)

Lemma parse_coco_split_category_name_witness :
  Forall2 (fun ann row =>
             o_category_id row = category_id ann
             /\ (Forall (fun c => cat_id c ≠ category_id ann)
                   (categories coco_categories) ->
                 o_category_name row
                 = String.append "class_" (pretty (category_id ann)))
             /\ (forall l1 c l2,
                   categories coco_categories = l1 ++ c :: l2 ->
                   cat_id c = category_id ann ->
                   Forall (fun c' => cat_id c' ≠ category_id ann) l2 ->
                   o_category_name row = name c))
          (annotations coco_categories)
          (rows_of (parse_coco_split "train" {[ "train" := coco_categories ]})).
Proof.
  apply (parse_coco_split_category_name "train" {[ "train" := coco_categories ]}).
  - reflexivity.
  - vm_compute. reflexivity.
Defined.

Lemma parse_coco_split_row_of_annotation_witness :
  Forall2 (fun ann row =>
             o_split row = "train" /\ o_image_id row = image_id ann
             /\ o_x_min_px row = bx (bbox ann) /\ o_y_min_px row = by_ (bbox ann)
             /\ o_x_max_px row = (o_x_min_px row + o_width_px row)%Q
             /\ o_y_max_px row = (o_y_min_px row + o_height_px row)%Q
             /\ (forall l1 img l2,
                   images coco_categories = l1 ++ img :: l2 ->
                   id img = image_id ann ->
                   Forall (fun img' => id img' ≠ image_id ann) l2 ->
                   o_file_name row = file_name img
                   /\ o_img_width_px row = width img
                   /\ o_img_height_px row = height img))
          (annotations coco_categories)
          (rows_of (parse_coco_split "train" {[ "train" := coco_categories ]})).
Proof.
  apply (parse_coco_split_row_of_annotation "train"
           {[ "train" := coco_categories ]}).
  - reflexivity.
  - vm_compute. reflexivity.
Defined.

(** The cases of a membership in the list of the three splits. *)
Ltac three_splits Hin :=
  apply elem_of_cons in Hin as [->|Hin];
  [|apply elem_of_cons in Hin as [->|Hin];
    [|apply list_elem_of_singleton in Hin as ->]].

Lemma extract_object_level_gt_all_splits_witness :
  exists rows_train rows_valid rows_test,
    parse_coco_split "train" dataset_two_splits = Ok rows_train
    /\ parse_coco_split "valid" dataset_two_splits = Ok rows_valid
    /\ parse_coco_split "test" dataset_two_splits = Ok rows_test
    /\ extract_object_level_gt (pipeline_of dataset_two_splits)
       = (Ok "annotations_with_geo.csv",
          write_annotations (pipeline_of dataset_two_splits)
            (rows_train ++ rows_valid ++ rows_test))
    /\ length (rows_train ++ rows_valid ++ rows_test)
       = (n_annotations dataset_two_splits "train"
          + n_annotations dataset_two_splits "valid"
          + n_annotations dataset_two_splits "test")%nat.
Proof.
  apply (extract_object_level_gt_all_splits (pipeline_of dataset_two_splits)
           dataset_two_splits).
  - reflexivity.
  - intros split coco Hin Hc. three_splits Hin; vm_compute in Hc;
      [injection Hc as <- | discriminate Hc | injection Hc as <-];
      repeat constructor.
Defined.

Lemma extract_object_level_gt_dangling_aborts_witness :
  exists k,
    extract_object_level_gt (pipeline_of dataset_dangling)
    = (Raise (KeyError_int k), pipeline_of dataset_dangling).
Proof.
  apply (extract_object_level_gt_dangling_aborts (pipeline_of dataset_dangling)
           dataset_dangling "valid" coco_dangling).
  - reflexivity.
  - repeat constructor.
  - reflexivity.
  - apply Exists_cons_tl, Exists_cons_hd. repeat constructor; simpl; lia.
Defined.

Lemma build_gt_for_split_row_of_image_witness :
  let mine := filter (fun ann => image_id ann = id img_a) (annotations coco_areas) in
  exists rows row,
    build_gt_for_split "train" {[ "train" := coco_areas ]} = Ok rows
    /\ rows !! 0%nat = Some row
    /\ g_split row = "train" /\ g_file_name row = file_name img_a
    /\ g_image_id row = id img_a
    /\ num_boxes_gt row = Z.of_nat (length mine)
    /\ area_px_gt row = series_sum (area_px_or_zero <$> mine)
    /\ area_m2_gt row = series_sum (area_m2_or_zero <$> mine)
    /\ has_solar_gt row = bool_decide (mine ≠ []).
Proof.
  apply (build_gt_for_split_row_of_image "train" {[ "train" := coco_areas ]}
           coco_areas 0 img_a).
  - reflexivity.
  - reflexivity.
Defined.

Lemma build_gt_for_split_ignores_dangling_witness :
  build_gt_for_split "valid"
    (<["valid" := drop_dangling coco_dangling]> dataset_dangling)
  = build_gt_for_split "valid" dataset_dangling.
Proof.
  apply (build_gt_for_split_ignores_dangling "valid" dataset_dangling
           coco_dangling).
  - reflexivity.
  - discriminate.
Defined.

Lemma extract_image_level_gt_all_splits_witness :
  exists rows_train rows_valid rows_test,
    build_gt_for_split "train" dataset_two_splits = Ok rows_train
    /\ build_gt_for_split "valid" dataset_two_splits = Ok rows_valid
    /\ build_gt_for_split "test" dataset_two_splits = Ok rows_test
    /\ extract_image_level_gt (pipeline_of dataset_two_splits)
       = (Ok "gt_image_level_all_images.csv",
          Some (Table (rows_train ++ rows_valid ++ rows_test)))
    /\ Forall (fun g => g_split g = "train") rows_train
    /\ Forall (fun g => g_split g = "valid") rows_valid
    /\ Forall (fun g => g_split g = "test") rows_test
    /\ length (rows_train ++ rows_valid ++ rows_test)
       = (n_images dataset_two_splits "train"
          + n_images dataset_two_splits "valid"
          + n_images dataset_two_splits "test")%nat.
Proof.
  apply (extract_image_level_gt_all_splits (pipeline_of dataset_two_splits)
           dataset_two_splits).
  - reflexivity.
  - intros split coco Hin Hc. three_splits Hin; vm_compute in Hc;
      [injection Hc as <- | discriminate Hc | injection Hc as <-];
      left; discriminate.
  - vm_compute. discriminate.
Defined.

Lemma extract_image_level_gt_no_image_witness :
  extract_image_level_gt (pipeline_of ∅)
  = (Raise (KeyError_str "has_solar_gt"), Some NoColumns).
Proof.
  apply (extract_image_level_gt_no_image (pipeline_of ∅) ∅).
  - reflexivity.
  - intros split coco _ Hc. vm_compute in Hc. discriminate Hc.
Defined.

Lemma run_inference_on_split_skips_failure_witness :
  run_inference_on_split sample_infer "train"
    (["data/train/a.jpg"] ++ "data/train/b.jpg" :: ["data/train/c.jpg"]) "pv/8"
  = run_inference_on_split sample_infer "train"
      (["data/train/a.jpg"] ++ ["data/train/c.jpg"]) "pv/8".
Proof.
  apply (run_inference_on_split_skips_failure sample_infer "train" "pv/8"
           ["data/train/a.jpg"] "data/train/b.jpg" ["data/train/c.jpg"]
           (ValueError "timeout")).
  reflexivity.
Defined.

Lemma pred_row_area_witness :
  (0 <= area_px_pred (pred_row "train" "data/train/a.jpg" sample_answer))%Q
  /\ (Qpositive (area_px_pred (pred_row "train" "data/train/a.jpg" sample_answer))
      = true ->
      has_solar_pred (pred_row "train" "data/train/a.jpg" sample_answer) = true).
Proof.
  apply (pred_row_area "train" "data/train/a.jpg" sample_answer).
  repeat constructor; vm_compute; discriminate.
Defined.

Lemma pred_row_file_name_witness :
  basename (String.append "data/train" (String "/" "a.jpg")) = "a.jpg"
  /\ pred_key (pred_row "train" (String.append "data/train" (String "/" "a.jpg"))
                sample_answer)
     = ("train", "a.jpg").
Proof.
  apply (pred_row_file_name "train" "data/train" "a.jpg" sample_answer).
  repeat (constructor; [discriminate|]). constructor.
Defined.

Lemma metrics_classification_permutation_witness :
  let m := metrics sqrt_floor (pd_merge_inner three_images_gt three_images_pred) in
  let m' := metrics sqrt_floor
              (reverse (pd_merge_inner three_images_gt three_images_pred)) in
  tp m = tp m' /\ fp m = fp m' /\ fn m = fn m' /\ tn m = tn m'
  /\ accuracy m = accuracy m' /\ precision m = precision m'
  /\ recall m = recall m' /\ f1_score m = f1_score m'
  /\ num_images_area_eval m = num_images_area_eval m'
  /\ total_images m = total_images m'.
Proof.
  apply (metrics_classification_permutation sqrt_floor).
  symmetry. apply reverse_Permutation.
Defined.

Lemma metrics_area_permutation_witness :
  cell_eq
    (mae_px2 (metrics sqrt_floor (pd_merge_inner three_images_gt three_images_pred)))
    (mae_px2 (metrics sqrt_floor
                (reverse (pd_merge_inner three_images_gt three_images_pred))))
  /\ cell_eq
       (mape_percent
          (metrics sqrt_floor (pd_merge_inner three_images_gt three_images_pred)))
       (mape_percent
          (metrics sqrt_floor
             (reverse (pd_merge_inner three_images_gt three_images_pred)))).
Proof.
  apply (metrics_area_permutation sqrt_floor).
  symmetry. apply reverse_Permutation.
Defined.

Lemma pd_merge_inner_unique_keys_witness :
  let df_merged := pd_merge_inner three_images_gt three_images_pred in
  merged_key <$> df_merged
  = gt_key <$> matched_gt three_images_gt three_images_pred
  /\ (length df_merged <= length three_images_gt)%nat
  /\ (NoDup (gt_key <$> three_images_gt) ->
      NoDup (merged_key <$> df_merged)
      /\ (length df_merged <= length three_images_pred)%nat
      /\ ((forall p, p ∈ three_images_pred ->
                     pred_key p ∈ gt_key <$> three_images_gt) ->
          length df_merged = length three_images_pred)).
Proof.
  apply (pd_merge_inner_unique_keys three_images_gt three_images_pred).
  apply (bool_decide_unpack _). vm_compute. exact I.
Defined.

